(** * process_pix.py: extraction of PIX registration records from sheets

    A shallow embedding of [clean_value], [numeric_or_string],
    [find_header_row], [find_name_column], [extract_rows_from_sheet],
    [process_workbook] and [main], followed by the properties proved
    about them.

    Conventions of the embedding:
    - a Python [str] is the list of its code points;
    - an operation that can raise returns a [result]; [try/except] is a
      match on the exception;
    - the Unicode tables that Python consults for code points outside
      ASCII (upper-casing, decimal values, the digit property) are
      parameters of the development; ASCII is written out;
    - an [int] is a [Z] and a [float] an exact binary64 value;
      converting between an [int] and its decimal text raises
      [ValueError] beyond the interpreter's limit on integer strings, at
      its default of 4300 digits;
    - paths compare as on a POSIX system. *)

From Stdlib Require Import String Ascii Bool ZArith NArith Lia List.
From Stdlib Require Import Permutation Sorted.
From Stdlib Require Import SpecFloat DecimalPos Eqdep_dec.
From Stdlib Require DecimalFacts.
Import ListNotations.

(* ================================================================== *)
(** ** Exceptions *)

(** The exceptions of the program: the three the code itself can meet,
    and any other exception, by its text (the workbook reader's). *)
Inductive exn : Type :=
| ValueError
| OverflowError
| IndexError
| OtherError (text : list N).

Inductive result (A : Type) : Type :=
| Ok (a : A)
| Raise (e : exn).

Arguments Ok {A} a.
Arguments Raise {A} e.

Definition bind {A B : Type} (c : result A) (k : A -> result B) : result B :=
  match c with
  | Ok a => k a
  | Raise e => Raise e
  end.

Notation "x <- c ;; k" := (bind c (fun x => k))
  (at level 61, c at next level, right associativity).

(* ================================================================== *)
(** ** Text *)

Definition str : Type := list N.

(** An ASCII literal as a [str]. *)
Definition lit (s : string) : str := map N_of_ascii (list_ascii_of_string s).

Fixpoint str_eqb (a b : str) : bool :=
  match a, b with
  | [], [] => true
  | x :: a', y :: b' => N.eqb x y && str_eqb a' b'
  | _, _ => false
  end.

(** Truthiness of a [str]: [not value] is [is_empty value]. *)
Definition is_empty (s : str) : bool :=
  match s with
  | [] => true
  | _ :: _ => false
  end.

(** [s.startswith(p)]. *)
Fixpoint startswith (s p : str) : bool :=
  match p, s with
  | [], _ => true
  | x :: p', y :: s' => N.eqb x y && startswith s' p'
  | _ :: _, [] => false
  end.

(** [p in s] for two strings. *)
Fixpoint contains (s p : str) : bool :=
  startswith s p ||
  match s with
  | [] => false
  | _ :: s' => contains s' p
  end.

(** The characters [str.strip()] removes: those for which
    [str.isspace] holds. *)
Definition isspace (c : N) : bool :=
  (((0x09 <=? c) && (c <=? 0x0D)) || ((0x1C <=? c) && (c <=? 0x20))
   || (c =? 0x85) || (c =? 0xA0) || (c =? 0x1680)
   || ((0x2000 <=? c) && (c <=? 0x200A))
   || (c =? 0x2028) || (c =? 0x2029) || (c =? 0x202F)
   || (c =? 0x205F) || (c =? 0x3000))%N.

Fixpoint lstrip (s : str) : str :=
  match s with
  | [] => []
  | c :: s' => if isspace c then lstrip s' else s
  end.

Definition rstrip (s : str) : str := rev (lstrip (rev s)).

Definition strip (s : str) : str := rstrip (lstrip s).

(** [str(n)] for an [int]. *)
Fixpoint uint_str (d : Decimal.uint) : str :=
  match d with
  | Decimal.Nil => []
  | Decimal.D0 d => 48%N :: uint_str d
  | Decimal.D1 d => 49%N :: uint_str d
  | Decimal.D2 d => 50%N :: uint_str d
  | Decimal.D3 d => 51%N :: uint_str d
  | Decimal.D4 d => 52%N :: uint_str d
  | Decimal.D5 d => 53%N :: uint_str d
  | Decimal.D6 d => 54%N :: uint_str d
  | Decimal.D7 d => 55%N :: uint_str d
  | Decimal.D8 d => 56%N :: uint_str d
  | Decimal.D9 d => 57%N :: uint_str d
  end.

Definition str_of_pos (p : positive) : str := uint_str (Pos.to_uint p).

Definition str_of_int (z : Z) : str :=
  match z with
  | Z0 => lit "0"
  | Zpos p => str_of_pos p
  | Zneg p => lit "-" ++ str_of_pos p
  end.

(** [sys.get_int_max_str_digits()], at its default: a conversion
    between an [int] and a decimal text of more digits raises
    [ValueError]. *)
Definition int_max_str_digits : nat := 4300.

(** The number of decimal digits of an [int]. *)
Definition int_digits (z : Z) : nat := length (str_of_int (Z.abs z)).

(** [str(n)] for an [int] [n]. *)
Definition str_int (z : Z) : result str :=
  if int_max_str_digits <? int_digits z then Raise ValueError
  else Ok (str_of_int z).

(** A [float] in a cell is a binary64 value (a numpy [float32] is one
    too, by its value). *)
Record pyfloat : Type := PyFloat {
  float_val : spec_float;
  float_ok : valid_binary 53 1024 float_val = true
}.

(** An [int] in a cell has at most [int_max_str_digits] digits: the
    reader makes it with [int] from the text of the cell, under that
    limit (a longer text makes [xls.parse] itself raise), and a numpy
    integer has at most 20. *)
Record pyint : Type := PyInt {
  int_val : Z;
  int_ok : (int_digits int_val <=? int_max_str_digits) = true
}.

(** A float and an int given by a value that passes the check. *)
Notation "'float_lit' f" := (PyFloat f eq_refl) (at level 10, f at level 9).
Notation "'int_lit' n" := (PyInt n eq_refl) (at level 10, n at level 9).

(** The Unicode data Python consults for a code point above ASCII: its
    upper-case mapping, its value as a decimal digit (category Nd) if it
    is one, and whether it is another digit character (a superscript, a
    circled digit, ...). *)
Record unicode_data : Type := UnicodeData {
  upper_tab : N -> list N;
  decimal_tab : N -> option N;
  digit_tab : N -> bool
}.

Section Program.

Variable U : unicode_data.

Definition upper_char (c : N) : str :=
  if (c <? 128)%N then
    [if ((97 <=? c) && (c <=? 122))%N then (c - 32)%N else c]
  else upper_tab U c.

(** [s.upper()]. *)
Definition upper (s : str) : str := flat_map upper_char s.

Definition decimal_value (c : N) : option N :=
  if (c <? 128)%N then
    if ((48 <=? c) && (c <=? 57))%N then Some (c - 48)%N else None
  else decimal_tab U c.

(** [ch.isdigit()]. *)
Definition isdigit_char (c : N) : bool :=
  match decimal_value c with
  | Some _ => true
  | None => (128 <=? c)%N && digit_tab U c
  end.

(** [s.isdigit()]. *)
Definition str_isdigit (s : str) : bool :=
  negb (is_empty s) && forallb isdigit_char s.

Fixpoint int_loop (acc : Z) (s : str) : result Z :=
  match s with
  | [] => Ok acc
  | c :: s' =>
      match decimal_value c with
      | Some d => int_loop (10 * acc + Z.of_N d) s'
      | None => Raise ValueError
      end
  end.

(** [int(digits)] on a string of [isdigit] characters, the only strings
    [numeric_or_string] passes to it: [ValueError] when the string is
    longer than the limit on integer strings (leading zeros count) or
    holds a character that is no decimal digit, the value in base ten
    otherwise.  (Signs, blanks and underscores, which [int] also reads,
    are not [isdigit] characters.) *)
Definition int_of_digits (digits : str) : result Z :=
  if is_empty digits then Raise ValueError
  else if int_max_str_digits <? length digits then Raise ValueError
  else int_loop 0 digits.

(* ================================================================== *)
(** ** Floats

    The value of a [float] is a [spec_float]: sign, mantissa and binary
    exponent, or a zero, an infinity, or NaN. *)

Definition isnan (f : spec_float) : bool :=
  match f with
  | S754_nan => true
  | _ => false
  end.

(** [value.is_integer()]. *)
Definition is_integer (f : spec_float) : bool :=
  match f with
  | S754_zero _ => true
  | S754_infinity _ => false
  | S754_nan => false
  | S754_finite _ m e =>
      (0 <=? e)%Z || (Zpos m mod 2 ^ (- e) =? 0)%Z
  end.

(** [int(value)] for a float: truncation toward zero; NaN and the
    infinities raise. *)
Definition int_of_float (f : spec_float) : result Z :=
  match f with
  | S754_zero _ => Ok 0%Z
  | S754_infinity _ => Raise OverflowError
  | S754_nan => Raise ValueError
  | S754_finite s m e =>
      let a := if (0 <=? e)%Z then (Zpos m * 2 ^ e)%Z
               else (Zpos m / 2 ^ (- e))%Z in
      Ok (if s then (- a)%Z else a)
  end.

(** *** The format [.15g] *)

Fixpoint rstrip_zeros_rev (r : str) : str :=
  match r with
  | [] => []
  | c :: r' => if (c =? 48)%N then rstrip_zeros_rev r' else r
  end.

(** Trailing ['0'] characters removed. *)
Definition rstrip_zeros (s : str) : str := rev (rstrip_zeros_rev (rev s)).

(** The positive value [m * 2^e] as a fraction [(n, d)]. *)
Definition ratio (m : positive) (e : Z) : Z * Z :=
  if (0 <=? e)%Z then (Zpos m * 2 ^ e, 1)%Z else (Zpos m, 2 ^ (- e))%Z.

Definition nb_digits (z : Z) : nat :=
  match z with
  | Zpos p => Decimal.nb_digits (Pos.to_uint p)
  | _ => 1
  end.

(** The least [k' >= k] with [d <= n * 10^k'], searched upward. *)
Fixpoint scale_up (fuel : nat) (n d k : Z) : Z :=
  match fuel with
  | O => k
  | S fuel' => if (d <=? n * 10 ^ k)%Z then k else scale_up fuel' n d (k + 1)
  end.

(** The decimal exponent [X] of [n / d]: [10^X <= n / d < 10^(X+1)]. *)
Definition decimal_exponent (n d : Z) : Z :=
  if (d <=? n)%Z then Z.of_nat (nb_digits (n / d)) - 1
  else - scale_up (nb_digits d) n d 1.

(** [n / d] divided by [10^q], rounded to the nearest integer, ties to
    even. *)
Definition round_scaled (n d q : Z) : Z :=
  let '(n', d') := if (0 <=? q)%Z then (n, d * 10 ^ q)%Z
                   else (n * 10 ^ (- q), d)%Z in
  let quo := (n' / d')%Z in
  let rem := (n' mod d')%Z in
  if ((d' <? 2 * rem) || ((2 * rem =? d') && Z.odd quo))%Z
  then (quo + 1)%Z else quo.

(** The 15 significant digits of [n / d] and its decimal exponent after
    rounding. *)
Definition significand15 (n d : Z) : Z * Z :=
  let x := decimal_exponent n d in
  let r := round_scaled n d (x - 14) in
  if (r =? 10 ^ 15)%Z then (10 ^ 14, x + 1)%Z else (r, x).

(** The exponent of the scientific form: a sign and at least two
    digits. *)
Definition exponent_str (x : Z) : str :=
  let a := Z.abs x in
  (if (x <? 0)%Z then lit "-" else lit "+")
    ++ (if (a <? 10)%Z then lit "0" else []) ++ str_of_int a.

Definition format_15g_pos (m : positive) (e : Z) : str :=
  let '(n, d) := ratio m e in
  let '(r, x) := significand15 n d in
  let digits := str_of_int r in
  if ((x <? -4) || (15 <=? x))%Z then
    match digits with
    | [] => []
    | d0 :: rest =>
        let frac := rstrip_zeros rest in
        d0 :: (if is_empty frac then [] else lit "." ++ frac)
           ++ lit "e" ++ exponent_str x
    end
  else if (0 <=? x)%Z then
    let k := Z.to_nat (x + 1) in
    let frac := rstrip_zeros (skipn k digits) in
    firstn k digits ++ (if is_empty frac then [] else lit "." ++ frac)
  else
    lit "0." ++ repeat 48%N (Z.to_nat (- x - 1)) ++ rstrip_zeros digits.

(** [f"{value:.15g}"]. *)
Definition format_15g (f : spec_float) : str :=
  match f with
  | S754_zero s => if s then lit "-0" else lit "0"
  | S754_infinity s => if s then lit "-inf" else lit "inf"
  | S754_nan => lit "nan"
  | S754_finite s m e =>
      (if s then lit "-" else []) ++ format_15g_pos m e
  end.

(* ================================================================== *)
(** ** Cells, rows and frames *)

(** A Python scalar, as [clean_value] may be given one.  A [bool] is an
    [int] for [isinstance] and is an [SInt]; [SNA] stands for the
    missing markers that are not floats ([pd.NaT], [pd.NA]); [SOther] is
    any other scalar, given by the outcome of its [str()]. *)
Inductive scalar : Type :=
| SNone
| SFloat (f : pyfloat)
| SInt (n : Z)
| SStr (s : str)
| SNA
| SOther (text : result str).

(** A cell of a sheet read with [header=None]: a scalar the reader
    yields.  Its ints are within the limit and the [str()] of its other
    values (a date, a time, a numpy bool) raises for none of them. *)
Inductive cell : Type :=
| CNone
| CFloat (f : pyfloat)
| CInt (n : pyint)
| CStr (s : str)
| CNA
| COther (text : str).

Definition scalar_of (c : cell) : scalar :=
  match c with
  | CNone => SNone
  | CFloat f => SFloat f
  | CInt n => SInt (int_val n)
  | CStr s => SStr s
  | CNA => SNA
  | COther text => SOther (Ok text)
  end.

Coercion scalar_of : cell >-> scalar.

Definition nan : cell := CFloat (float_lit S754_nan).

(** [pd.isna(value)] on a scalar. *)
Definition isna (value : scalar) : bool :=
  match value with
  | SNone => true
  | SFloat f => isnan (float_val f)
  | SNA => true
  | _ => false
  end.

Definition clean_value (value : scalar) : result str :=
  match value with
  | SNone => Ok []
  | SFloat f =>
      if isnan (float_val f) then Ok []
      else if is_integer (float_val f) then
        n <- int_of_float (float_val f) ;; str_int n
      else Ok (strip (format_15g (float_val f)))
  | SInt n => str_int n
  | SStr s => Ok (strip s)
  | SNA => Ok []
  | SOther text => s <- text ;; Ok (strip s)
  end.

(** A value of a record: text or integer. *)
Inductive value : Type :=
| VStr (s : str)
| VInt (n : Z).

Definition numeric_or_string (v : str) : result value :=
  if is_empty v then Ok (VStr [])
  else
    let digits := filter isdigit_char v in
    if negb (is_empty digits) && (length digits =? length v) then
      match int_of_digits digits with
      | Ok n => Ok (VInt n)
      | Raise ValueError => Ok (VStr v)
      | Raise e => Raise e
      end
    else Ok (VStr v).

(** A row of a frame ([pd.Series] indexed by column position). *)
Definition Series : Type := list cell.

(** A sheet is given by its rows.  The frame is rectangular: its width
    is that of the longest row, and a shorter row is filled with NaN, as
    pandas fills a grid.  Rows and columns are labelled by position
    ([RangeIndex]), as [parse(header=None)] leaves them. *)
Definition DataFrame : Type := list (list cell).

Definition width (df : DataFrame) : nat :=
  fold_right (fun r w => Nat.max (length r) w) 0 df.

Definition pad (w : nat) (r : list cell) : Series :=
  r ++ repeat nan (w - length r).

Definition rows (df : DataFrame) : list Series := map (pad (width df)) df.

(** [df.iterrows()]. *)
Definition iterrows (df : DataFrame) : list (nat * Series) :=
  combine (seq 0 (length df)) (rows df).

(** [df.iloc[i]]. *)
Definition iloc (df : DataFrame) (i : nat) : result Series :=
  match nth_error (rows df) i with
  | Some r => Ok r
  | None => Raise IndexError
  end.

(** [data.iloc[:, col]] for a block [data] of rows of a frame of width
    [w]. *)
Definition iloc_col (w : nat) (data : list Series) (col : nat)
  : result (list cell) :=
  if col <? w then Ok (map (fun r => nth col r nan) data)
  else Raise IndexError.

(** [row.get(idx)]: [None] when the row has no column [idx]. *)
Definition row_get (row : Series) (idx : nat) : cell :=
  match nth_error row idx with
  | Some v => v
  | None => CNone
  end.

(** The dict built for each row, with its keys in order
    (the first key is ["NOME "]). *)
Record PixRecord : Type := mkRecord {
  NOME : str;
  CPF : str;
  COD_BANCO : value;
  BANCO : str;
  AGENCIA : str;
  CONTA : str;
  TIPO_CHAVE_PIX : str;
  CHAVE_PIX : value
}.

(** The column indices [extract_rows_from_sheet] holds when it reaches
    its loop over the rows. *)
Record Columns : Type := mkColumns {
  name_idx : nat;
  cpf_idx : nat;
  banco_idx : nat;
  agencia_idx : nat;
  conta_idx : nat;
  chave_tipo_idx : option nat;
  chave_val_idx : option nat
}.

Definition cell_has_cpf (c : cell) : bool :=
  match c with
  | CStr s => contains (upper s) (lit "CPF")
  | _ => false
  end.

Fixpoint find_header_loop (items : list (nat * Series)) : option nat :=
  match items with
  | [] => None
  | (idx, row) :: rest =>
      if existsb cell_has_cpf row then Some idx else find_header_loop rest
  end.

Definition find_header_row (df : DataFrame) : option nat :=
  find_header_loop (iterrows df).

(** [any(isinstance(val, str) and val.strip() for val in column)]. *)
Definition is_text (val : cell) : bool :=
  match val with
  | CStr s => negb (is_empty (strip s))
  | _ => false
  end.

Definition has_text (column_series : list cell) : bool :=
  existsb is_text column_series.

(** The loop [for col in cols: ... return col] of [find_name_column]. *)
Fixpoint first_text_column (w : nat) (data : list Series) (cols : list nat)
  : result (option nat) :=
  match cols with
  | [] => Ok None
  | col :: cols' =>
      column_series <- iloc_col w data col ;;
      if has_text column_series then Ok (Some col)
      else first_text_column w data cols'
  end.

(** [col in header_row.index and pd.isna(header_row[col])]. *)
Definition blank_header (header_row : Series) (col : nat) : bool :=
  match nth_error header_row col with
  | Some v => isna v
  | None => false
  end.

Definition blank_header_cols (header_row : Series) (cpf_idx : nat)
  : list nat :=
  filter (blank_header header_row) (seq 0 cpf_idx).

Definition find_name_column (df : DataFrame) (header_idx cpf_idx : nat)
    (header_row : Series) : result (option nat) :=
  if cpf_idx <=? 0 then Ok None
  else
    let data := skipn (header_idx + 1) (rows df) in
    found <- first_text_column (width df) data
               (blank_header_cols header_row cpf_idx) ;;
    match found with
    | Some col => Ok (Some col)
    | None => first_text_column (width df) data (seq 0 cpf_idx)
    end.

(** [next((idx for idx, label in header_labels.items() if label == l),
    None)]; the dict is kept as the list of its items in insertion
    order. *)
Fixpoint next_label (header_labels : list (nat * str)) (l : str)
  : option nat :=
  match header_labels with
  | [] => None
  | (idx, label) :: rest =>
      if str_eqb label l then Some idx else next_label rest l
  end.

(** The dict [header_labels], filled over [header_row.items()]. *)
Fixpoint header_labels_from (col_idx : nat) (header_row : Series)
  : list (nat * str) :=
  match header_row with
  | [] => []
  | CStr s :: rest =>
      (col_idx, upper (strip s)) :: header_labels_from (S col_idx) rest
  | _ :: rest => header_labels_from (S col_idx) rest
  end.

Definition header_labels (header_row : Series) : list (nat * str) :=
  header_labels_from 0 header_row.

(** [clean_value(row.get(idx)) if idx is not None else ""]. *)
Definition clean_optional (row : Series) (idx : option nat) : result str :=
  match idx with
  | Some i => clean_value (row_get row i)
  | None => Ok []
  end.

(** Truthiness of a string inside [any([...])]. *)
Definition truthy (s : str) : bool := negb (is_empty s).

(** The body of the loop over the data rows, on the list [records]. *)
Definition extract_row (c : Columns) (records : list PixRecord)
    (row : Series) : result (list PixRecord) :=
  name <- clean_value (row_get row (name_idx c)) ;;
  if is_empty name || startswith (upper name) (lit "TOTAL") then Ok records
  else
    cpf <- clean_value (row_get row (cpf_idx c)) ;;
    banco_codigo <- clean_value (row_get row (banco_idx c)) ;;
    banco_nome <- clean_value (row_get row (banco_idx c + 1)) ;;
    agencia <- clean_value (row_get row (agencia_idx c)) ;;
    conta <- clean_value (row_get row (conta_idx c)) ;;
    chave_tipo <- clean_optional row (chave_tipo_idx c) ;;
    chave_valor <- clean_optional row (chave_val_idx c) ;;
    if negb (existsb truthy [cpf; banco_codigo; banco_nome; agencia; conta;
                             chave_tipo; chave_valor])
    then Ok records
    else
      cod <- numeric_or_string banco_codigo ;;
      chave <- (if str_isdigit chave_valor then numeric_or_string chave_valor
                else Ok (VStr chave_valor)) ;;
      Ok (records ++ [mkRecord name cpf cod banco_nome agencia conta
                               chave_tipo chave])%list.

Fixpoint rows_loop (c : Columns) (data : list Series)
    (records : list PixRecord) : result (list PixRecord) :=
  match data with
  | [] => Ok records
  | row :: rest =>
      records' <- extract_row c records row ;;
      rows_loop c rest records'
  end.

Definition extract_rows_from_sheet (df : DataFrame)
  : result (list PixRecord) :=
  match find_header_row df with
  | None => Ok []
  | Some header_idx =>
      header_row <- iloc df header_idx ;;
      let labels := header_labels header_row in
      let conta := next_label labels (lit "CONTA") in
      let chave_tipo := next_label labels (lit "CHAVE PIX") in
      let chave_val := next_label labels (lit "PIX") in
      match next_label labels (lit "CPF"),
            next_label labels (lit "BANCO"),
            next_label labels (lit "AGENCIA") with
      | Some cpf, Some banco, Some agencia =>
          let conta := match conta with
                       | None => agencia + 1
                       | Some i => i
                       end in
          name <- find_name_column df header_idx cpf header_row ;;
          match name with
          | None => Ok []
          | Some name =>
              rows_loop
                (mkColumns name cpf banco agencia conta chave_tipo chave_val)
                (skipn (header_idx + 1) (rows df)) []
          end
      | _, _, _ => Ok []
      end
  end.

End Program.

(** binary64 values used below: [1200.0] and [1234.5], each with its
    53-bit mantissa. *)
Definition f_1200 : pyfloat :=
  float_lit (S754_finite false 5277655813324800 (-42)).
Definition f_1234_5 : pyfloat :=
  float_lit (S754_finite false 5429388417957888 (-42)).


(** The tables over the Latin-1 block (U+0080 to U+00FF), used for the
    worked examples; a code point above the block is left as it is. *)
Definition latin1 : unicode_data :=
  UnicodeData
    (fun c =>
       if (c =? 0xB5)%N then [0x39C%N]
       else if (c =? 0xDF)%N then [0x53%N; 0x53%N]
       else if (c =? 0xFF)%N then [0x178%N]
       else if ((0xE0 <=? c) && (c <=? 0xFE) && negb (c =? 0xF7))%N
            then [(c - 32)%N]
       else [c])
    (fun _ => None)
    (fun c => ((c =? 0xB2) || (c =? 0xB3) || (c =? 0xB9))%N).

(** The text a cell normalizes to, [""] should [clean_value] raise. *)
Definition cleaned (value : cell) : str :=
  match clean_value value with
  | Ok text => text
  | Raise _ => []
  end.

(* ================================================================== *)
(** ** Vocabulary of the properties *)

(** The text of an optional column: [""] when the column is unresolved. *)
Definition optional_text (row : Series) (idx : option nat) : str :=
  match idx with
  | Some i => cleaned (row_get row i)
  | None => []
  end.

(** The seven normalized fields of a row besides the name: CPF, bank
    code, bank name, branch, account, key type, key value. *)
Definition payment_fields (c : Columns) (row : Series) : list str :=
  [cleaned (row_get row (cpf_idx c));
   cleaned (row_get row (banco_idx c));
   cleaned (row_get row (banco_idx c + 1));
   cleaned (row_get row (agencia_idx c));
   cleaned (row_get row (conta_idx c));
   optional_text row (chave_tipo_idx c);
   optional_text row (chave_val_idx c)].

Section Vocabulary.

Variable U : unicode_data.

(** [denotes s n]: the decimal digits of [s], most significant first,
    denote the integer [n]. *)
Inductive denotes : str -> Z -> Prop :=
| denotes_nil : denotes [] 0%Z
| denotes_snoc s n c d :
    denotes s n ->
    decimal_value U c = Some d ->
    denotes (s ++ [c]) (10 * n + Z.of_N d)%Z.

(** Every character of [s] is a decimal digit. *)
Definition all_decimal (s : str) : Prop :=
  Forall (fun c => decimal_value U c <> None) s.

(** Some text cell of the row, upper-cased, includes ["CPF"]. *)
Definition mentions_cpf (row : list cell) : Prop :=
  exists s pre post,
    In (CStr s) row /\ upper U s = pre ++ lit "CPF" ++ post.

(** [name.upper().startswith("TOTAL")], as a proposition. *)
Definition starts_with_total (name : str) : Prop :=
  exists t, upper U name = lit "TOTAL" ++ t.

(** The sheet resolves: [extract_rows_from_sheet] finds the header row
    [header_idx], the columns of "CPF", "BANCO" and "AGENCIA" and a name
    column, and enters its loop over the rows with the columns [c]. *)
Definition resolved (df : DataFrame) (header_idx : nat) (c : Columns)
  : Prop :=
  find_header_row U df = Some header_idx /\
  exists header_row,
    iloc df header_idx = Ok header_row /\
    next_label (header_labels U header_row) (lit "CPF") = Some (cpf_idx c) /\
    next_label (header_labels U header_row) (lit "BANCO")
      = Some (banco_idx c) /\
    next_label (header_labels U header_row) (lit "AGENCIA")
      = Some (agencia_idx c) /\
    conta_idx c
      = match next_label (header_labels U header_row) (lit "CONTA") with
        | None => agencia_idx c + 1
        | Some i => i
        end /\
    chave_tipo_idx c
      = next_label (header_labels U header_row) (lit "CHAVE PIX") /\
    chave_val_idx c = next_label (header_labels U header_row) (lit "PIX") /\
    find_name_column df header_idx (cpf_idx c) header_row
      = Ok (Some (name_idx c)).

(** [r] is the record the loop body builds from [row]: its fields are
    the normalized cells of the row, the bank code and a key value made
    of digits having gone through [numeric_or_string]; and the row
    passed both filters. *)
Definition emitted_from (c : Columns) (row : Series) (r : PixRecord)
  : Prop :=
  NOME r = cleaned (row_get row (name_idx c)) /\
  CPF r = cleaned (row_get row (cpf_idx c)) /\
  numeric_or_string U (cleaned (row_get row (banco_idx c)))
    = Ok (COD_BANCO r) /\
  BANCO r = cleaned (row_get row (banco_idx c + 1)) /\
  AGENCIA r = cleaned (row_get row (agencia_idx c)) /\
  CONTA r = cleaned (row_get row (conta_idx c)) /\
  TIPO_CHAVE_PIX r = optional_text row (chave_tipo_idx c) /\
  (if str_isdigit U (optional_text row (chave_val_idx c))
   then numeric_or_string U (optional_text row (chave_val_idx c))
   else Ok (VStr (optional_text row (chave_val_idx c))))
    = Ok (CHAVE_PIX r) /\
  NOME r <> [] /\
  ~ starts_with_total (NOME r) /\
  (exists f, In f (payment_fields c row) /\ f <> []).

(** What a record must satisfy to have been worth emitting. *)
Definition valid_record (r : PixRecord) : Prop :=
  NOME r <> [] /\
  ~ starts_with_total (NOME r) /\
  (CPF r <> [] \/ COD_BANCO r <> VStr [] \/ BANCO r <> [] \/
   AGENCIA r <> [] \/ CONTA r <> [] \/ TIPO_CHAVE_PIX r <> [] \/
   CHAVE_PIX r <> VStr []).

End Vocabulary.

(** The rows below the header: [df.iloc[header_idx + 1:]]. *)
Definition data_rows (df : DataFrame) (header_idx : nat) : list Series :=
  skipn (header_idx + 1) (rows df).

(** The cells of column [col] in a block of rows. *)
Definition column (data : list Series) (col : nat) : list cell :=
  map (fun r => nth col r nan) data.

(** Column [col] holds a non-blank text somewhere in the block. *)
Definition column_has_text (data : list Series) (col : nat) : Prop :=
  exists row s,
    In row data /\ nth_error row col = Some (CStr s) /\ strip s <> [].

(** The header cell of column [col] is a missing value: [None], NaN or
    another missing marker. *)
Definition missing_header (header_row : Series) (col : nat) : Prop :=
  exists v, nth_error header_row col = Some v /\
            (v = CNone \/ v = nan \/ v = CNA).

(** The first loop of [find_name_column]: the search among the columns
    with a blank header. *)
Definition pass1 (df : DataFrame) (header_idx cpf_idx : nat)
    (header_row : Series) : result (option nat) :=
  first_text_column (width df) (data_rows df header_idx)
    (blank_header_cols header_row cpf_idx).

(** Pass 1 as the specification words it: a header cell is blank when it
    is missing or is a text of blanks only. *)
Definition spec_blank_header (header_row : Series) (col : nat) : bool :=
  match nth_error header_row col with
  | Some (CStr s) => is_empty (strip s)
  | Some v => isna v
  | None => true
  end.

Definition spec_pass1 (df : DataFrame) (header_idx cpf_idx : nat)
    (header_row : Series) : option nat :=
  find (fun col => has_text (column (data_rows df header_idx) col))
       (filter (spec_blank_header header_row) (seq 0 cpf_idx)).

(* ================================================================== *)
(** ** Sheets of the worked examples *)

Definition txt (s : string) : cell := CStr (lit s).

(** The end-to-end scenario, with [cod] under "COD BANCO" (the integer 1
    in the scenario) and [x] under "NOME BANCO", the column right of
    "BANCO". *)
Definition scenario (cod x : cell) : DataFrame :=
  [ [nan; txt "NOME"; txt "CPF"; txt "COD BANCO"; txt "BANCO";
     txt "NOME BANCO"; txt "AGENCIA"; txt "CONTA"; txt "CHAVE PIX";
     txt "PIX"];
    [nan; txt "Maria Silva"; txt "11122233344"; cod; txt "Banco X";
     x; txt "0001"; txt "12345"; txt "CPF"; txt "11122233344"] ].

(** The record the scenario is said to yield. *)
Definition scenario_expected : PixRecord :=
  mkRecord (lit "Maria Silva") (lit "11122233344") (VInt 1) (lit "Banco X")
           (lit "0001") (lit "12345") (lit "CPF") (VInt 11122233344).

(** The record it yields. *)
Definition scenario_record (x : cell) : PixRecord :=
  mkRecord (lit "Maria Silva") (lit "11122233344") (VStr (lit "Banco X"))
           (cleaned x) (lit "0001") (lit "12345") (lit "CPF")
           (VInt 11122233344).

(** A sheet with a title row, a totals row and a row with a name only. *)
Definition ledger : DataFrame :=
  [ [txt "Folha de pagamento"];
    [nan; txt "cpf"; txt " Banco "; nan; txt "agencia"; txt "PIX"];
    [txt "Ana Lima"; txt "123"; CInt (int_lit 341); txt "Itau"; CInt (int_lit 12); txt "a@b.c"];
    [txt "Total geral"; txt "999"; CInt (int_lit 1); txt "x"; CInt (int_lit 2); txt "y"];
    [txt "Rui Sa"];
    [txt "Bia Reis"; CFloat f_1200; txt "045"; nan; nan; txt "0119"] ].

Definition ledger_columns : Columns :=
  mkColumns 0 1 2 4 5 None (Some 5).

(** A sheet whose header has "CPF" and "AGENCIA" but no "BANCO". *)
Definition no_banco : DataFrame :=
  [ [nan; txt "CPF"; txt "COD BANCO"; txt "AGENCIA"];
    [txt "Ana Lima"; txt "123"; CInt (int_lit 341); CInt (int_lit 12)] ].

(** A sheet whose first header cell is a text of blanks. *)
Definition spaced_header : DataFrame :=
  [ [txt "  "; nan; txt "CPF"; txt "BANCO"; nan; txt "AGENCIA"];
    [txt "Ana"; txt "Bia"; txt "123"; CInt (int_lit 341); txt "Itau"; CInt (int_lit 12)] ].

Definition spaced_header_row : Series :=
  [txt "  "; nan; txt "CPF"; txt "BANCO"; nan; txt "AGENCIA"].

(** Two rows agree when they hold the same cells once extended to the
    right with NaN: one is the other with missing cells appended. *)
Definition agree (r r' : list cell) : Prop :=
  forall i, nth i r nan = nth i r' nan.

(* ================================================================== *)
(** ** Workbooks and the batch *)

(** What [pd.ExcelFile(path)] gives: the exception it raised, by its
    text, or the sheets of the workbook in the order of
    [xls.sheet_names], each as what [xls.parse] with [header=None] does
    for it: the frame it returns or the exception it raises. *)
Inductive workbook : Type :=
| Unreadable (exc : str)
| Sheets (sheets : list (result DataFrame)).


(** A file of the directory: its name and what opening it gives. *)
Definition file : Type := (str * workbook)%type.

(** [a < b] on [str]: lexicographic on code points.  Two paths yielded
    by [Path('.').glob] compare as their names do (POSIX flavour). *)
Fixpoint str_ltb (a b : str) : bool :=
  match a, b with
  | _, [] => false
  | [], _ :: _ => true
  | x :: a', y :: b' => (x <? y)%N || ((x =? y)%N && str_ltb a' b')
  end.

(** A file comes no later than another: the other is not [<] it. *)
Definition name_le (f g : str * workbook) : Prop :=
  str_ltb (fst g) (fst f) = false.

(** [sorted]: a stable sort that compares with [<] only. *)
Fixpoint insert_file (f : file) (l : list file) : list file :=
  match l with
  | [] => [f]
  | g :: l' =>
      if str_ltb (fst g) (fst f) then g :: insert_file f l'
      else f :: g :: l'
  end.

Definition sorted (l : list file) : list file :=
  fold_right insert_file [] l.

Definition OUTPUT_XLSX : str := lit "pix_output.xlsx".

(** The line [process_workbook] prints for a workbook it cannot open:
    "Não foi possível abrir " followed by the name, ": " and the
    exception. *)
Definition cannot_open (name exc : str) : str :=
  lit "N" ++ [0xE3%N] ++ lit "o foi poss" ++ [0xED%N] ++ lit "vel abrir "
    ++ name ++ lit ": " ++ exc.

(** The files [main] processes, in order, out of what the glob yields. *)
Definition main_files (listing : list file) : list file :=
  sorted (filter (fun f => negb (str_eqb (fst f) OUTPUT_XLSX)) listing).

Section Batch.

Variable U : unicode_data.

(** The loop of [process_workbook] over the sheets, on [records]; an
    exception of [xls.parse] is outside the [try] and leaves the
    function. *)
Fixpoint sheets_loop (sheets : list (result DataFrame))
    (records : list PixRecord) : result (list PixRecord) :=
  match sheets with
  | [] => Ok records
  | parsed :: rest =>
      df <- parsed ;;
      new <- extract_rows_from_sheet U df ;;
      sheets_loop rest (records ++ new)
  end.

(** [process_workbook(path)], on the lines printed so far: the records
    and the lines printed. *)
Definition process_workbook (f : file) (out : list str)
  : result (list PixRecord * list str) :=
  match snd f with
  | Unreadable exc => Ok ([], out ++ [cannot_open (fst f) exc])
  | Sheets sheets =>
      records <- sheets_loop sheets [] ;;
      Ok (records, out)
  end.

(** The loop of [main] over the files, on [all_records]. *)
Fixpoint files_loop (files : list file) (all_records : list PixRecord)
    (out : list str) : result (list PixRecord * list str) :=
  match files with
  | [] => Ok (all_records, out)
  | f :: rest =>
      r <- process_workbook f out ;;
      files_loop rest (all_records ++ fst r) (snd r)
  end.

(** [main] up to [all_records], the list it hands to both writers (the
    JSON text and the table), with the lines printed on the way. *)
Definition main (listing : list file) (out : list str)
  : result (list PixRecord * list str) :=
  files_loop (main_files listing) [] out.

(** The records one data row gives to the loop of
    [extract_rows_from_sheet]. *)
Definition row_records (c : Columns) (row : Series) : list PixRecord :=
  match extract_row U c [] row with
  | Ok new => new
  | Raise _ => []
  end.

(** The records of a sheet, [] should the extraction raise. *)
Definition sheet_records (df : DataFrame) : list PixRecord :=
  match extract_rows_from_sheet U df with
  | Ok records => records
  | Raise _ => []
  end.

(** What a file contributes to the batch: its records, or the
    exception that leaves [process_workbook]. *)
Definition file_records (f : file) : result (list PixRecord) :=
  match snd f with
  | Unreadable _ => Ok []
  | Sheets sheets => sheets_loop sheets []
  end.

(** The records of the files in order, up to the first exception. *)
Fixpoint batch_records (files : list file) : result (list PixRecord) :=
  match files with
  | [] => Ok []
  | f :: rest =>
      records <- file_records f ;;
      more <- batch_records rest ;;
      Ok (records ++ more)
  end.

(** The line a file adds to the output, if any. *)
Definition file_lines (f : file) : list str :=
  match snd f with
  | Unreadable exc => [cannot_open (fst f) exc]
  | Sheets _ => []
  end.

End Batch.

(** A small directory: two workbooks, one file that cannot be opened and
    the result file of an earlier run. *)
Definition directory : list file :=
  [ (lit "b.xlsx", Sheets [Ok no_banco; Ok ledger]);
    (lit "pix_output.xlsx", Sheets [Ok ledger]);
    (lit "c.xlsx", Unreadable (lit "File is not a zip file"));
    (lit "a.xlsx", Sheets [Ok (scenario (CInt (int_lit 1)) nan)]) ].

(** The same directory with a workbook whose second sheet does not
    parse. *)
Definition bad_sheet : exn := OtherError (lit "bad sheet").

Definition broken_directory : list file :=
  (lit "b2.xlsx", Sheets [Ok ledger; Raise bad_sheet; Ok ledger])
    :: directory.

(** A sheet whose BANCO column is the last column: the bank name would
    be one column past the end. *)
Definition banco_last : DataFrame :=
  [ [nan; txt "CPF"; txt "AGENCIA"; txt "BANCO"];
    [txt "Ana Lima"; txt "123"; CInt (int_lit 12); CInt (int_lit 341)] ].

(** A sheet whose AGENCIA column is the last column and that has no
    "CONTA": the account would be one column past the end. *)
Definition agencia_last : DataFrame :=
  [ [nan; txt "CPF"; txt "BANCO"; nan; txt "AGENCIA"];
    [txt "Ana Lima"; txt "123"; CInt (int_lit 341); txt "Itau";
     CInt (int_lit 12)] ].

Definition banco_last_columns : Columns :=
  mkColumns 0 1 3 2 3 None None.

Definition agencia_last_columns : Columns :=
  mkColumns 0 1 2 4 5 None None.

(** A text of 4300 ones, the longest [int] reads, and one of 4301. *)
Definition ones_4300 : str := repeat 49%N 4300.

Definition ones_4301 : str := 49%N :: ones_4300.


(** A sheet whose header mentions CPF in no cell that is exactly "CPF". *)
Definition cpf_cnpj : DataFrame :=
  [ [nan; txt "CPF/CNPJ"; txt "BANCO"; nan; txt "AGENCIA"];
    [txt "Ana Lima"; txt "123"; CInt (int_lit 341); txt "Itau"; CInt (int_lit 12)] ].

(** A sheet whose CPF column is the first column. *)
Definition cpf_first : DataFrame :=
  [ [txt "CPF"; txt "BANCO"; nan; txt "AGENCIA"];
    [txt "123"; CInt (int_lit 341); txt "Itau"; CInt (int_lit 12)] ].

(* ================================================================== *)
(** ** Text lemmas *)

Lemma str_eqb_eq (a b : str) : str_eqb a b = true <-> a = b.
Proof.
  revert b; induction a as [|x a IH]; intros [|y b]; simpl;
    try (split; [discriminate | discriminate]); try tauto.
  rewrite andb_true_iff, N.eqb_eq, IH.
  split; [intros [-> ->]; reflexivity | intros E; inversion E; auto].
Qed.

Lemma startswith_iff (s p : str) :
  startswith s p = true <-> exists t, s = p ++ t.
Proof.
  revert s; induction p as [|x p IH]; intros s; simpl.
  - split; [intros _; exists s; reflexivity | destruct s; reflexivity].
  - destruct s as [|y s]; cbn [startswith].
    + split; [discriminate | intros [t E]; discriminate].
    + rewrite andb_true_iff, N.eqb_eq, IH. split.
      * intros [-> [t ->]]. exists t. reflexivity.
      * intros [t E]. inversion E; subst. split; [reflexivity | eauto].
Qed.

Lemma contains_iff (s p : str) :
  contains s p = true <-> exists a b, s = a ++ p ++ b.
Proof.
  induction s as [|y s IH].
  - cbn [contains]. rewrite orb_false_r, startswith_iff. split.
    + intros [t E]. exists [], t. exact E.
    + intros [a [b E]]. destruct a; [eauto|discriminate].
  - cbn [contains]. rewrite orb_true_iff, startswith_iff, IH. split.
    + intros [[t E] | [a [b E]]].
      * exists [], t. exact E.
      * exists (y :: a), b. simpl. rewrite E. reflexivity.
    + intros [[|x a] [b E]].
      * left. eauto.
      * right. inversion E; subst. eauto.
Qed.

Lemma is_empty_true (s : str) : is_empty s = true <-> s = [].
Proof. destruct s; simpl; split; congruence. Qed.

Lemma is_empty_false (s : str) : is_empty s = false <-> s <> [].
Proof. destruct s; simpl; split; congruence. Qed.

(* ================================================================== *)
(** ** The digits of an integer *)

Lemma uint_str_length (d : Decimal.uint) :
  length (uint_str d) = Decimal.nb_digits d.
Proof. induction d; simpl; congruence. Qed.

Lemma usize_nb_digits (d : Decimal.uint) :
  Unsigned.usize d = N.of_nat (Decimal.nb_digits d).
Proof.
  induction d; cbn [Unsigned.usize Decimal.nb_digits];
    rewrite ?Nat2N.inj_succ; [reflexivity | congruence ..].
Qed.

Lemma to_uint_normal (p : positive) :
  Decimal.unorm (Pos.to_uint p) = Pos.to_uint p.
Proof.
  rewrite <- (Unsigned.to_of (Pos.to_uint p)), Unsigned.of_to. reflexivity.
Qed.

Lemma to_uint_head (p : positive) (d : Decimal.uint) :
  Pos.to_uint p <> Decimal.D0 d.
Proof.
  intros E. pose proof (to_uint_normal p) as Hn.
  assert (Hz : Decimal.nzhead (Pos.to_uint p) <> Decimal.Nil).
  { intros Hnil. apply (Unsigned.to_uint_nonzero p).
    rewrite <- Hn. apply DecimalFacts.unorm_0. exact Hnil. }
  rewrite (DecimalFacts.unorm_nzhead _ Hz) in Hn.
  rewrite E in Hn. exact (DecimalFacts.nzhead_nonzero _ _ Hn).
Qed.

(** A numeral that does not begin with 0 is at least the power of ten
    of its length less one. *)
Lemma of_lu_rev_lower (d : Decimal.uint) :
  d <> Decimal.Nil -> (forall d', d <> Decimal.D0 d') ->
  (10 ^ (Unsigned.usize d - 1) <= Unsigned.of_lu (Decimal.rev d))%N.
Proof.
  intros Hnil Hz.
  destruct d as [|d|d|d|d|d|d|d|d|d|d];
    [congruence | exfalso; exact (Hz d eq_refl) | ..];
    unfold Decimal.rev; cbn [Decimal.revapp];
    rewrite (Unsigned.of_lu_revapp d); cbn [Unsigned.usize];
    rewrite N.sub_1_r, N.pred_succ;
    match goal with
    | |- context [Unsigned.of_lu (?k Decimal.Nil)] =>
        let v := eval cbv in (Unsigned.of_lu (k Decimal.Nil)) in
        change (Unsigned.of_lu (k Decimal.Nil)) with v
    end;
    nia.
Qed.

Lemma digits_bound (p : positive) (k : nat) :
  (Zpos p < 10 ^ Z.of_nat k)%Z -> int_digits (Zpos p) <= k.
Proof.
  intros H. unfold int_digits. cbn [Z.abs str_of_int]. unfold str_of_pos.
  rewrite uint_str_length.
  pose proof (of_lu_rev_lower (Pos.to_uint p) (Unsigned.to_uint_nonnil p)
                (to_uint_head p)) as Hlow.
  rewrite <- Unsigned.of_uint_alt, Unsigned.of_to in Hlow.
  rewrite usize_nb_digits in Hlow.
  destruct (Nat.le_gt_cases (Decimal.nb_digits (Pos.to_uint p)) k)
    as [Hle | Hgt]; [exact Hle|].
  exfalso.
  assert (Hk : (10 ^ N.of_nat k
                <= 10 ^ (N.of_nat (Decimal.nb_digits (Pos.to_uint p)) - 1))%N).
  { apply N.pow_le_mono_r; lia. }
  assert (Hp : (10 ^ N.of_nat k <= N.pos p)%N) by lia.
  apply N2Z.inj_le in Hp. rewrite N2Z.inj_pow, nat_N_Z in Hp.
  cbn [Z.of_N] in Hp. lia.
Qed.

Lemma int_digits_bound (n : Z) (k : nat) :
  0 < k -> (Z.abs n < 10 ^ Z.of_nat k)%Z -> int_digits n <= k.
Proof.
  intros Hk H. destruct n as [|p|p].
  - cbn. lia.
  - apply digits_bound. exact H.
  - change (int_digits (Zneg p)) with (int_digits (Zpos p)).
    apply digits_bound. exact H.
Qed.

Lemma digits2_pos_bound (m : positive) :
  (Zpos m < 2 ^ Zpos (digits2_pos m))%Z.
Proof.
  induction m as [m IH|m IH|]; cbn [digits2_pos];
    rewrite ?Pos2Z.inj_succ, ?Z.pow_succ_r by lia; lia.
Qed.

(** The integer value of a binary64 float is below 2^1024. *)
Lemma binary64_int (f : spec_float) (n : Z) :
  valid_binary 53 1024 f = true -> int_of_float f = Ok n ->
  (Z.abs n < 2 ^ 1024)%Z.
Proof.
  destruct f as [sg|sg| |sg m e]; cbn [valid_binary int_of_float];
    try discriminate.
  - intros _ [= <-]. reflexivity.
  - unfold bounded, canonical_mantissa, fexp, emin.
    rewrite andb_true_iff, Z.eqb_eq, Z.leb_le. intros [Hc He] Hn.
    cbv zeta in Hn.
    pose proof (digits2_pos_bound m) as Hm.
    assert (Hd : (Zpos (digits2_pos m) <= 53)%Z) by lia.
    assert (Hm53 : (Zpos m < 2 ^ 53)%Z).
    { eapply Z.lt_le_trans; [exact Hm|]. apply Z.pow_le_mono_r; lia. }
    assert (Ha : (0 <= (if (0 <=? e)%Z then Zpos m * 2 ^ e
                        else Zpos m / 2 ^ (- e)) < 2 ^ 1024)%Z).
    { destruct (0 <=? e)%Z eqn:E.
      - apply Z.leb_le in E. split; [apply Z.mul_nonneg_nonneg; lia|].
        replace 1024%Z with (53 + 971)%Z by reflexivity.
        rewrite Z.pow_add_r by lia.
        assert (Ha : (0 < 2 ^ e)%Z) by (apply Z.pow_pos_nonneg; lia).
        assert (Hb : (2 ^ e <= 2 ^ 971)%Z) by (apply Z.pow_le_mono_r; lia).
        apply Z.lt_le_trans with (2 ^ 53 * 2 ^ e)%Z.
        + apply Z.mul_lt_mono_pos_r; assumption.
        + apply Z.mul_le_mono_nonneg_l; [apply Z.pow_nonneg; lia | exact Hb].
      - apply Z.leb_gt in E.
        assert (0 < 2 ^ (- e))%Z by (apply Z.pow_pos_nonneg; lia).
        split; [apply Z.div_pos; lia|].
        eapply Z.le_lt_trans; [apply Z.div_le_upper_bound; [lia|]|].
        + instantiate (1 := Zpos m). nia.
        + eapply Z.lt_trans; [exact Hm53|]. reflexivity. }
    revert Hn Ha.
    generalize (if (0 <=? e)%Z then (Zpos m * 2 ^ e)%Z
                else (Zpos m / 2 ^ (- e))%Z).
    generalize (2 ^ 1024)%Z.
    intros b a Hn Ha. injection Hn as <-. destruct sg; lia.
Qed.

(** Two floats, and two ints, of a cell are equal when their values
    are. *)
Lemma pyfloat_eq (f g : pyfloat) : float_val f = float_val g -> f = g.
Proof.
  destruct f as [x Hx], g as [y Hy]. cbn [float_val]. intros <-.
  f_equal. apply UIP_dec. apply Bool.bool_dec.
Qed.

Lemma pyint_eq (m n : pyint) : int_val m = int_val n -> m = n.
Proof.
  destruct m as [x Hx], n as [y Hy]. cbn [int_val]. intros <-.
  f_equal. apply UIP_dec. apply Bool.bool_dec.
Qed.

Lemma str_int_ok (n : Z) :
  int_digits n <= int_max_str_digits -> str_int n = Ok (str_of_int n).
Proof.
  intros H. unfold str_int.
  destruct (int_max_str_digits <? int_digits n) eqn:E; [|reflexivity].
  apply Nat.ltb_lt in E. lia.
Qed.

Lemma str_int_float (f : pyfloat) (n : Z) :
  int_of_float (float_val f) = Ok n -> str_int n = Ok (str_of_int n).
Proof.
  intros H. apply str_int_ok.
  apply int_digits_bound; [unfold int_max_str_digits; lia|].
  eapply Z.lt_trans; [exact (binary64_int _ n (float_ok f) H)|].
  vm_compute. reflexivity.
Qed.

Lemma str_int_cell (n : pyint) :
  str_int (int_val n) = Ok (str_of_int (int_val n)).
Proof. apply str_int_ok. apply Nat.leb_le. exact (int_ok n). Qed.

(* ================================================================== *)
(** ** [clean_value] *)

Lemma is_integer_int (f : spec_float) :
  is_integer f = true -> exists n, int_of_float f = Ok n.
Proof. destruct f; simpl; try discriminate; eauto. Qed.

(** What [clean_value] returns for an int and for a float. *)
Lemma clean_value_int (n : pyint) :
  clean_value (CInt n) = Ok (str_of_int (int_val n)).
Proof. apply str_int_cell. Qed.

Lemma clean_value_float (f : pyfloat) :
  clean_value (CFloat f)
  = Ok (if isnan (float_val f) then []
        else if is_integer (float_val f) then
          match int_of_float (float_val f) with
          | Ok n => str_of_int n
          | Raise _ => []
          end
        else strip (format_15g (float_val f))).
Proof.
  cbn [clean_value scalar_of].
  destruct (isnan (float_val f)); [reflexivity|].
  destruct (is_integer (float_val f)) eqn:E; [|reflexivity].
  destruct (is_integer_int _ E) as [n Hn]. rewrite Hn. cbn [bind].
  apply (str_int_float f n Hn).
Qed.

Lemma clean_value_ok (value : cell) : clean_value value = Ok (cleaned value).
Proof.
  unfold cleaned.
  destruct value as [|f|n|s| |text]; try reflexivity.
  - rewrite clean_value_float. reflexivity.
  - rewrite clean_value_int. reflexivity.
Qed.

(** [f_1200] is 1200 and [f_1234_5] is 2469/2. *)
Lemma f_1200_value :
  float_val f_1200 = S754_finite false 5277655813324800 (-42) /\
  (5277655813324800 = 1200 * 2 ^ 42)%Z.
Proof. split; reflexivity. Qed.

Lemma f_1234_5_value :
  float_val f_1234_5 = S754_finite false 5429388417957888 (-42) /\
  (2 * 5429388417957888 = 2469 * 2 ^ 42)%Z.
Proof. split; reflexivity. Qed.


(* ================================================================== *)
(** ** [numeric_or_string] *)

Section Coercion.

Variable U : unicode_data.

Lemma decimal_isdigit (c : N) :
  decimal_value U c <> None -> isdigit_char U c = true.
Proof.
  unfold isdigit_char. destruct (decimal_value U c); congruence.
Qed.

Lemma filter_all (A : Type) (f : A -> bool) (l : list A) :
  forallb f l = true -> filter f l = l.
Proof.
  induction l as [|x l IH]; simpl; [reflexivity|].
  destruct (f x); simpl; [intros H; rewrite IH by exact H; reflexivity
                         | discriminate].
Qed.

Lemma filter_short (A : Type) (f : A -> bool) (l : list A) :
  forallb f l = false -> (length (filter f l) =? length l) = false.
Proof.
  intros H. apply Nat.eqb_neq.
  induction l as [|x l IH]; simpl in *; [discriminate|].
  destruct (f x); simpl in *.
  - specialize (IH H). lia.
  - pose proof (filter_length_le f l). lia.
Qed.

Lemma all_decimal_isdigit (s : str) :
  all_decimal U s -> forallb (isdigit_char U) s = true.
Proof.
  intros H. apply forallb_forall. intros c Hc.
  apply decimal_isdigit. revert c Hc. apply Forall_forall. exact H.
Qed.

Lemma int_loop_denotes (s pre : str) (acc : Z) :
  denotes U pre acc -> all_decimal U s ->
  exists n, int_loop U acc s = Ok n /\ denotes U (pre ++ s) n.
Proof.
  revert pre acc. induction s as [|c s IH]; intros pre acc Hpre Hs.
  - exists acc. rewrite app_nil_r. split; [reflexivity | exact Hpre].
  - inversion Hs as [|? ? Hc Hs']; subst. simpl.
    destruct (decimal_value U c) as [d|] eqn:E; [|congruence].
    destruct (IH (pre ++ [c]) (10 * acc + Z.of_N d)%Z) as [n [Hn Hd]].
    + constructor; assumption.
    + exact Hs'.
    + exists n. split; [exact Hn|]. rewrite <- app_assoc in Hd. exact Hd.
Qed.

Lemma int_loop_raises (s : str) (acc : Z) :
  ~ all_decimal U s -> int_loop U acc s = Raise ValueError.
Proof.
  revert acc. induction s as [|c s IH]; intros acc H.
  - exfalso. apply H. constructor.
  - simpl. destruct (decimal_value U c) as [d|] eqn:E; [|reflexivity].
    apply IH. intros Hs. apply H. constructor; [congruence | exact Hs].
Qed.

Lemma all_decimal_dec (s : str) : {all_decimal U s} + {~ all_decimal U s}.
Proof.
  apply Forall_dec. intros c. destruct (decimal_value U c).
  - left. discriminate.
  - right. intros H. apply H. reflexivity.
Defined.

Lemma int_of_digits_long (v : str) :
  int_max_str_digits < length v -> int_of_digits U v = Raise ValueError.
Proof.
  intros H. unfold int_of_digits.
  destruct (is_empty v); [reflexivity|].
  apply Nat.ltb_lt in H. rewrite H. reflexivity.
Qed.

Lemma int_of_digits_short (c : N) (v : str) :
  length (c :: v) <= int_max_str_digits ->
  int_of_digits U (c :: v) = int_loop U 0 (c :: v).
Proof.
  intros H. unfold int_of_digits. cbn [is_empty].
  destruct (int_max_str_digits <? length (c :: v)) eqn:E; [|reflexivity].
  apply Nat.ltb_lt in E. lia.
Qed.

(** What [numeric_or_string] returns, by cases on its argument. *)
Lemma numeric_or_string_cases (v : str) :
  (v <> [] /\ all_decimal U v /\ length v <= int_max_str_digits /\
   exists n, numeric_or_string U v = Ok (VInt n) /\ denotes U v n)
  \/ ((v = [] \/ ~ all_decimal U v \/ int_max_str_digits < length v) /\
      numeric_or_string U v = Ok (VStr v)).
Proof.
  destruct v as [|c v]; [right; split; [left|]; reflexivity|].
  assert (Hlong : int_max_str_digits < length (c :: v) ->
                  numeric_or_string U (c :: v) = Ok (VStr (c :: v))).
  { intros Hl. unfold numeric_or_string. cbn [is_empty].
    destruct (forallb (isdigit_char U) (c :: v)) eqn:Hall.
    - rewrite (filter_all _ _ _ Hall). rewrite Nat.eqb_refl.
      cbn [is_empty negb andb].
      rewrite (int_of_digits_long _ Hl). reflexivity.
    - rewrite (filter_short _ _ _ Hall), andb_false_r. reflexivity. }
  destruct (Nat.le_gt_cases (length (c :: v)) int_max_str_digits)
    as [Hl | Hl]; [|right; split; [right; right; exact Hl | exact (Hlong Hl)]].
  destruct (all_decimal_dec (c :: v)) as [Hd|Hd].
  - left. split; [discriminate|]. split; [exact Hd|]. split; [exact Hl|].
    unfold numeric_or_string. cbn [is_empty].
    rewrite (filter_all _ _ _ (all_decimal_isdigit _ Hd)).
    rewrite Nat.eqb_refl. cbn [is_empty negb andb].
    rewrite (int_of_digits_short _ _ Hl).
    destruct (int_loop_denotes (c :: v) [] 0%Z (denotes_nil U) Hd) as [n [Hn Hv]].
    rewrite Hn. exists n. split; [reflexivity | exact Hv].
  - right. split; [right; left; exact Hd|].
    unfold numeric_or_string. cbn [is_empty].
    destruct (forallb (isdigit_char U) (c :: v)) eqn:Hall.
    + rewrite (filter_all _ _ _ Hall). rewrite Nat.eqb_refl.
      cbn [is_empty negb andb]. rewrite (int_of_digits_short _ _ Hl).
      rewrite (int_loop_raises (c :: v) 0%Z Hd). reflexivity.
    + rewrite (filter_short _ _ _ Hall), andb_false_r. reflexivity.
Qed.

(** C5. [numeric_or_string] returns the empty text for the empty text;
    for a non-empty text of at most 4300 characters, all decimal
    digits, it returns the integer those digits denote; any other text
    it returns unchanged: a text with a character that is no decimal
    digit, and a text of more than 4300 characters, for which [int]
    raises the [ValueError] that the function catches.  So "045" gives
    the integer 45, "45A" gives the text "45A". *)
Theorem numeric_or_string_spec :
  numeric_or_string U [] = Ok (VStr []) /\
  (forall v : str,
     v <> [] -> all_decimal U v -> length v <= int_max_str_digits ->
     exists n : Z, numeric_or_string U v = Ok (VInt n) /\ denotes U v n) /\
  (forall v : str,
     ~ all_decimal U v \/ int_max_str_digits < length v ->
     numeric_or_string U v = Ok (VStr v)) /\
  numeric_or_string U (lit "045") = Ok (VInt 45) /\
  numeric_or_string U (lit "45A") = Ok (VStr (lit "45A")).
Proof.
  split; [reflexivity|]. split; [|split; [|split; reflexivity]].
  - intros v Hne Hd Hl.
    destruct (numeric_or_string_cases v) as [[_ [_ [_ H]]] | [[H | [H | H]] _]];
      [exact H | contradiction | contradiction | lia].
  - intros v Hd.
    destruct (numeric_or_string_cases v) as [[_ [H [Hl _]]] | [_ H]];
      [|exact H].
    destruct Hd as [Hd | Hd]; [contradiction | lia].
Qed.

End Coercion.

(* ================================================================== *)
(** ** Frames *)

Lemma width_ge (df : DataFrame) (r : list cell) :
  In r df -> length r <= width df.
Proof.
  induction df as [|r' df IH]; simpl; [contradiction|].
  intros [-> | H]; [lia | specialize (IH H); lia].
Qed.

Lemma pad_length (w : nat) (r : list cell) :
  length r <= w -> length (pad w r) = w.
Proof.
  intros H. unfold pad. rewrite length_app, repeat_length. lia.
Qed.

Lemma rows_nth_error (df : DataFrame) (i : nat) :
  nth_error (rows df) i = option_map (pad (width df)) (nth_error df i).
Proof. unfold rows. apply nth_error_map. Qed.

Lemma rows_width (df : DataFrame) (row : Series) :
  In row (rows df) -> length row = width df.
Proof.
  unfold rows. rewrite in_map_iff. intros [r [<- Hr]].
  apply pad_length, width_ge, Hr.
Qed.

Lemma in_pad_str (w : nat) (r : list cell) (s : str) :
  In (CStr s) (pad w r) <-> In (CStr s) r.
Proof.
  unfold pad. rewrite in_app_iff. split; [|auto].
  intros [H | H]; [exact H|]. apply repeat_spec in H. discriminate.
Qed.

Lemma pad_nth_error_str (w : nat) (r : list cell) (i : nat) (s : str) :
  nth_error (pad w r) i = Some (CStr s) <-> nth_error r i = Some (CStr s).
Proof.
  unfold pad. destruct (Nat.lt_ge_cases i (length r)) as [H | H].
  - rewrite nth_error_app1 by exact H. tauto.
  - rewrite nth_error_app2 by exact H.
    assert (nth_error r i = None) as -> by (apply nth_error_None; exact H).
    split; [|discriminate]. intros E.
    apply nth_error_In, repeat_spec in E. discriminate.
Qed.

Lemma skipn_rows_in (df : DataFrame) (k : nat) (row : Series) :
  In row (skipn k (rows df)) -> length row = width df.
Proof.
  intros H. apply rows_width.
  rewrite <- (firstn_skipn k (rows df)). apply in_or_app. right. exact H.
Qed.

(* ================================================================== *)
(** ** [find_header_row] *)

Section Header.

Variable U : unicode_data.

Lemma cell_has_cpf_iff (row : list cell) :
  existsb (cell_has_cpf U) row = true <-> mentions_cpf U row.
Proof.
  rewrite existsb_exists. unfold mentions_cpf. split.
  - intros [c [Hin Hc]]. destruct c; try discriminate.
    apply contains_iff in Hc. destruct Hc as [pre [post E]].
    exists s, pre, post. split; assumption.
  - intros [s [pre [post [Hin E]]]]. exists (CStr s). split; [exact Hin|].
    apply contains_iff. eauto.
Qed.

Lemma mentions_cpf_pad (w : nat) (r : list cell) :
  mentions_cpf U (pad w r) <-> mentions_cpf U r.
Proof.
  unfold mentions_cpf.
  split; intros [s [pre [post [Hin E]]]]; exists s, pre, post;
    (split; [apply (in_pad_str w r s); exact Hin | exact E]).
Qed.

Lemma find_header_loop_some (rs : list Series) (k i : nat) :
  find_header_loop U (combine (seq k (length rs)) rs) = Some i ->
  exists j row,
    i = k + j /\ nth_error rs j = Some row /\ mentions_cpf U row /\
    forall j' row', j' < j -> nth_error rs j' = Some row' ->
                    ~ mentions_cpf U row'.
Proof.
  revert k. induction rs as [|r rs IH]; intros k; simpl; [discriminate|].
  destruct (existsb (cell_has_cpf U) r) eqn:E.
  - intros [= <-]. exists 0, r. repeat split; [lia | |].
    + apply cell_has_cpf_iff. exact E.
    + intros j' row' Hlt. lia.
  - intros H. destruct (IH (S k) H) as [j [row [-> [Hn [Hm Hmin]]]]].
    exists (S j), row. repeat split; [lia | exact Hn | exact Hm |].
    intros [|j'] row' Hlt Hn'; simpl in Hn'.
    + injection Hn' as <-. rewrite <- cell_has_cpf_iff. congruence.
    + apply (Hmin j'); [lia | exact Hn'].
Qed.

Lemma find_header_loop_none (rs : list Series) (k : nat) :
  find_header_loop U (combine (seq k (length rs)) rs) = None ->
  forall row, In row rs -> ~ mentions_cpf U row.
Proof.
  revert k. induction rs as [|r rs IH]; intros k; simpl; [tauto|].
  destruct (existsb (cell_has_cpf U) r) eqn:E; [discriminate|].
  intros H row [<- | Hin].
  - rewrite <- cell_has_cpf_iff. congruence.
  - apply (IH (S k) H). exact Hin.
Qed.

Lemma iterrows_rows (df : DataFrame) :
  iterrows df = combine (seq 0 (length (rows df))) (rows df).
Proof. unfold iterrows, rows. rewrite length_map. reflexivity. Qed.

(** The header row is the first row that mentions "CPF". *)
Lemma find_header_row_first (df : DataFrame) (i : nat) :
  find_header_row U df = Some i <->
  (exists row, nth_error df i = Some row /\ mentions_cpf U row) /\
  (forall j row, j < i -> nth_error df j = Some row ->
                 ~ mentions_cpf U row).
Proof.
  unfold find_header_row. rewrite iterrows_rows.
  assert (Hraw : forall j row, nth_error (rows df) j = Some row ->
            exists r, nth_error df j = Some r /\
                      (mentions_cpf U row <-> mentions_cpf U r)).
  { intros j row. rewrite rows_nth_error.
    destruct (nth_error df j) as [r|]; [|discriminate].
    intros [= <-]. exists r. split; [reflexivity | apply mentions_cpf_pad]. }
  assert (Hpad : forall j r, nth_error df j = Some r ->
            nth_error (rows df) j = Some (pad (width df) r)).
  { intros j r E. rewrite rows_nth_error, E. reflexivity. }
  split.
  - intros H. apply find_header_loop_some in H.
    destruct H as [j [row [-> [Hn [Hm Hmin]]]]]. simpl.
    destruct (Hraw _ _ Hn) as [r [Hr Hiff]]. split.
    + exists r. split; [exact Hr | apply Hiff; exact Hm].
    + intros j' r' Hlt Hr' Hm'.
      apply (Hmin j' (pad (width df) r') Hlt (Hpad _ _ Hr')).
      apply mentions_cpf_pad. exact Hm'.
  - intros [[r [Hr Hm]] Hmin].
    destruct (find_header_loop U _) as [i'|] eqn:E.
    + apply find_header_loop_some in E.
      destruct E as [j [row [-> [Hn [Hm' Hmin']]]]]. simpl.
      destruct (Hraw _ _ Hn) as [r' [Hr' Hiff]].
      destruct (Nat.lt_trichotomy i j) as [Hlt | [-> | Hlt]].
      * exfalso. apply (Hmin' i (pad (width df) r) Hlt (Hpad _ _ Hr)).
        apply mentions_cpf_pad. exact Hm.
      * reflexivity.
      * exfalso. apply (Hmin j r' Hlt Hr'). apply Hiff. exact Hm'.
    + exfalso.
      apply (find_header_loop_none _ _ E (pad (width df) r)).
      * apply (nth_error_In _ i). apply Hpad. exact Hr.
      * apply mentions_cpf_pad. exact Hm.
Qed.

Lemma find_header_row_none (df : DataFrame) :
  (forall row, In row df -> ~ mentions_cpf U row) ->
  find_header_row U df = None.
Proof.
  intros H. destruct (find_header_row U df) as [i|] eqn:E; [|reflexivity].
  apply find_header_row_first in E. destruct E as [[row [Hn Hm]] _].
  exfalso. apply (H row); [apply (nth_error_In _ i); exact Hn | exact Hm].
Qed.

(** C4. [find_header_row] returns the least index of a row that holds a
    text cell whose upper-cased content includes "CPF"; and when no cell
    of the sheet does, [extract_rows_from_sheet] returns the empty
    list. *)
Theorem find_header_row_spec (df : DataFrame) :
  (forall i : nat,
     find_header_row U df = Some i <->
     (exists row, nth_error df i = Some row /\ mentions_cpf U row) /\
     (forall j row, j < i -> nth_error df j = Some row ->
                    ~ mentions_cpf U row)) /\
  ((forall row, In row df -> ~ mentions_cpf U row) ->
   find_header_row U df = None /\ extract_rows_from_sheet U df = Ok []).
Proof.
  split; [apply find_header_row_first|].
  intros H. pose proof (find_header_row_none df H) as E.
  split; [exact E|]. unfold extract_rows_from_sheet. rewrite E. reflexivity.
Qed.

End Header.

(* ================================================================== *)
(** ** The loop over the rows *)

Section Rows.

Variable U : unicode_data.

Lemma clean_optional_ok (row : Series) (idx : option nat) :
  clean_optional row idx = Ok (optional_text row idx).
Proof. destruct idx; [apply clean_value_ok | reflexivity]. Qed.

Lemma numeric_or_string_ok (v : str) :
  exists v', numeric_or_string U v = Ok v' /\ (v <> [] -> v' <> VStr []).
Proof.
  destruct (numeric_or_string_cases U v) as [[_ [_ [_ [n [E _]]]]] | [_ E]].
  - exists (VInt n). split; [exact E | discriminate].
  - exists (VStr v). split; [exact E | congruence].
Qed.

Lemma startswith_total (name : str) :
  startswith (upper U name) (lit "TOTAL") = true <-> starts_with_total U name.
Proof. apply startswith_iff. Qed.

Lemma row_get_beyond (row : Series) (idx : nat) :
  length row <= idx -> cleaned (row_get row idx) = [].
Proof.
  intros H. unfold row_get.
  assert (nth_error row idx = None) as -> by (apply nth_error_None; exact H).
  reflexivity.
Qed.

(** The loop body with the normalized cells named. *)
Lemma extract_row_eq (c : Columns) (records : list PixRecord)
    (row : Series) :
  extract_row U c records row =
  if is_empty (cleaned (row_get row (name_idx c)))
     || startswith (upper U (cleaned (row_get row (name_idx c))))
                   (lit "TOTAL")
  then Ok records
  else if negb (existsb truthy (payment_fields c row)) then Ok records
  else
    cod <- numeric_or_string U (cleaned (row_get row (banco_idx c))) ;;
    chave <- (if str_isdigit U (optional_text row (chave_val_idx c))
              then numeric_or_string U (optional_text row (chave_val_idx c))
              else Ok (VStr (optional_text row (chave_val_idx c)))) ;;
    Ok (records ++
        [mkRecord (cleaned (row_get row (name_idx c)))
                  (cleaned (row_get row (cpf_idx c))) cod
                  (cleaned (row_get row (banco_idx c + 1)))
                  (cleaned (row_get row (agencia_idx c)))
                  (cleaned (row_get row (conta_idx c)))
                  (optional_text row (chave_tipo_idx c)) chave]).
Proof.
  unfold extract_row, payment_fields.
  repeat (rewrite ?clean_value_ok, ?clean_optional_ok; cbn [bind]).
  reflexivity.
Qed.

Lemma all_empty_not_truthy (fields : list str) :
  Forall (fun f => f = []) fields -> existsb truthy fields = false.
Proof.
  induction 1 as [|f fields Hf _ IH]; [reflexivity|].
  subst f. simpl. exact IH.
Qed.

Lemma truthy_some (fields : list str) :
  existsb truthy fields = true -> exists f, In f fields /\ f <> [].
Proof.
  rewrite existsb_exists. intros [f [Hin Hf]]. exists f. split; [exact Hin|].
  destruct f; [discriminate | discriminate].
Qed.

(** A row whose name is empty or starts with "TOTAL" adds nothing. *)
Lemma extract_row_skips_name (c : Columns) (records : list PixRecord)
    (row : Series) :
  cleaned (row_get row (name_idx c)) = [] \/
  starts_with_total U (cleaned (row_get row (name_idx c))) ->
  extract_row U c records row = Ok records.
Proof.
  intros H. rewrite extract_row_eq.
  destruct H as [-> | H]; [reflexivity|].
  apply startswith_total in H. rewrite H, orb_true_r. reflexivity.
Qed.

(** A row whose seven payment fields are empty adds nothing. *)
Lemma extract_row_skips_blank (c : Columns) (records : list PixRecord)
    (row : Series) :
  Forall (fun f => f = []) (payment_fields c row) ->
  extract_row U c records row = Ok records.
Proof.
  intros H. rewrite extract_row_eq.
  rewrite (all_empty_not_truthy _ H). cbn [negb].
  destruct (_ || _); reflexivity.
Qed.

(** The loop body never raises: it leaves the list as it is, or appends
    the one record built from the row. *)
Lemma extract_row_cases (c : Columns) (records : list PixRecord)
    (row : Series) :
  extract_row U c records row = Ok records \/
  exists r, extract_row U c records row = Ok (records ++ [r]) /\
            emitted_from U c row r.
Proof.
  rewrite extract_row_eq.
  destruct (is_empty (cleaned (row_get row (name_idx c)))) eqn:Hname;
    [left; reflexivity|].
  destruct (startswith (upper U (cleaned (row_get row (name_idx c))))
                       (lit "TOTAL")) eqn:Htotal; [left; reflexivity|].
  cbn [orb].
  destruct (existsb truthy (payment_fields c row)) eqn:Hany;
    [|left; reflexivity].
  cbn [negb]. right.
  destruct (numeric_or_string_ok (cleaned (row_get row (banco_idx c))))
    as [cod [Hcod _]].
  assert (exists chave,
            (if str_isdigit U (optional_text row (chave_val_idx c))
             then numeric_or_string U (optional_text row (chave_val_idx c))
             else Ok (VStr (optional_text row (chave_val_idx c))))
            = Ok chave) as [chave Hchave].
  { destruct (str_isdigit U _); [|eauto].
    destruct (numeric_or_string_ok (optional_text row (chave_val_idx c)))
      as [v [Hv _]]. eauto. }
  rewrite Hcod, Hchave. cbn [bind].
  eexists. split; [reflexivity|].
  unfold emitted_from.
  cbn [NOME CPF COD_BANCO BANCO AGENCIA CONTA TIPO_CHAVE_PIX CHAVE_PIX].
  repeat (split; [first [reflexivity | assumption]|]).
  split; [apply is_empty_false; exact Hname|].
  split; [|apply truthy_some; exact Hany].
  rewrite <- startswith_total. congruence.
Qed.

Lemma rows_loop_app (c : Columns) (a b : list Series)
    (records : list PixRecord) :
  rows_loop U c (a ++ b) records =
  (records' <- rows_loop U c a records ;; rows_loop U c b records').
Proof.
  revert records. induction a as [|row a IH]; intros records; simpl.
  - reflexivity.
  - destruct (extract_row U c records row) as [records'|e]; simpl.
    + apply IH.
    + reflexivity.
Qed.

(** The loop never raises, and every record it adds was built from one
    of the rows. *)
Lemma rows_loop_emits (c : Columns) (data : list Series)
    (records : list PixRecord) :
  exists new,
    rows_loop U c data records = Ok (records ++ new) /\
    Forall (fun r => exists row, In row data /\ emitted_from U c row r) new.
Proof.
  revert records. induction data as [|row data IH]; intros records.
  - exists []. rewrite app_nil_r. split; [reflexivity | constructor].
  - simpl.
    destruct (extract_row_cases c records row) as [E | [r [E Hr]]];
      rewrite E; cbn [bind].
    + destruct (IH records) as [new [Hn Hall]]. exists new.
      split; [exact Hn|].
      eapply Forall_impl; [|exact Hall].
      intros r [row' [Hin Hr]]. exists row'. split; [right|]; assumption.
    + destruct (IH (records ++ [r])) as [new [Hn Hall]].
      exists (r :: new). rewrite Hn, <- app_assoc. split; [reflexivity|].
      constructor.
      * exists row. split; [left; reflexivity | exact Hr].
      * eapply Forall_impl; [|exact Hall].
        intros r' [row' [Hin Hr']]. exists row'.
        split; [right|]; assumption.
Qed.

Lemma emitted_valid (c : Columns) (row : Series) (r : PixRecord) :
  emitted_from U c row r -> valid_record U r.
Proof.
  intros [Hn [Hcpf [Hcod [Hb [Ha [Hc [Ht [Hk [Hne [Htot [f [Hin Hf]]]]]]]]]]]].
  split; [exact Hne|]. split; [exact Htot|].
  unfold payment_fields in Hin. simpl in Hin.
  destruct Hin as [<- | [<- | [<- | [<- | [<- | [<- | [<- | []]]]]]]].
  - left. congruence.
  - right; left.
    destruct (numeric_or_string_ok (cleaned (row_get row (banco_idx c))))
      as [v [Hv Hnon]]. rewrite Hv in Hcod. injection Hcod as <-.
    apply Hnon. exact Hf.
  - right; right; left. congruence.
  - do 3 right. left. congruence.
  - do 4 right. left. congruence.
  - do 5 right. left. congruence.
  - do 6 right.
    destruct (str_isdigit U (optional_text row (chave_val_idx c))).
    + destruct (numeric_or_string_ok (optional_text row (chave_val_idx c)))
        as [v [Hv Hnon]]. rewrite Hv in Hk. injection Hk as <-.
      apply Hnon. exact Hf.
    + injection Hk as <-. congruence.
Qed.

End Rows.

(* ================================================================== *)
(** ** [find_name_column] *)

Lemma isna_iff (v : cell) :
  isna v = true <-> v = CNone \/ v = nan \/ v = CNA.
Proof.
  destruct v as [|f|n|s| |text]; cbn [isna scalar_of]; unfold nan;
    try (split; [discriminate | intros [H | [H | H]]; discriminate]);
    try (split; [auto | reflexivity]).
  split.
  - intros H. right. left. f_equal. apply pyfloat_eq. cbn [float_val].
    destruct (float_val f); try discriminate. reflexivity.
  - intros [H | [H | H]]; try discriminate.
    injection H as ->. reflexivity.
Qed.

Lemma blank_header_iff (header_row : Series) (col : nat) :
  blank_header header_row col = true <-> missing_header header_row col.
Proof.
  unfold blank_header, missing_header.
  destruct (nth_error header_row col) as [v|].
  - rewrite isna_iff. split; [eauto|]. intros [v' [[= <-] H]]. exact H.
  - split; [discriminate | intros [v [E _]]; discriminate].
Qed.

Lemma blank_header_cols_in (header_row : Series) (cpf col : nat) :
  In col (blank_header_cols header_row cpf) <->
  col < cpf /\ missing_header header_row col.
Proof.
  unfold blank_header_cols.
  rewrite filter_In, in_seq, blank_header_iff. intuition lia.
Qed.

Lemma has_text_column_iff (data : list Series) (col : nat) :
  has_text (column data col) = true <-> column_has_text data col.
Proof.
  unfold has_text, column, column_has_text. rewrite existsb_exists. split.
  - intros [v [Hin Hv]]. apply in_map_iff in Hin. destruct Hin as [row [E Hrow]].
    destruct v as [|f|n|s| |text]; try discriminate.
    exists row, s. split; [exact Hrow|]. split.
    + destruct (Nat.lt_ge_cases col (length row)) as [H | H].
      * rewrite (nth_error_nth' row nan H), E. reflexivity.
      * rewrite nth_overflow in E by exact H. discriminate.
    + simpl in Hv. apply is_empty_false. destruct (is_empty (strip s));
        [discriminate | reflexivity].
  - intros [row [s [Hin [Hn Hs]]]]. exists (CStr s). split.
    + apply in_map_iff. exists row. split; [|exact Hin].
      apply nth_error_nth. exact Hn.
    + simpl. apply is_empty_false in Hs. rewrite Hs. reflexivity.
Qed.

(** On columns of the frame the search raises nothing and returns the
    first column of the list that holds text. *)
Lemma first_text_column_find (w : nat) (data : list Series)
    (cols : list nat) :
  Forall (fun col => col < w) cols ->
  first_text_column w data cols
  = Ok (find (fun col => has_text (column data col)) cols).
Proof.
  induction 1 as [|col cols Hcol _ IH]; [reflexivity|].
  simpl. unfold iloc_col. apply Nat.ltb_lt in Hcol. rewrite Hcol.
  cbn [bind]. fold (column data col).
  destruct (has_text (column data col)); [reflexivity | exact IH].
Qed.

Lemma find_filter_seq_some (g f : nat -> bool) (a n x : nat) :
  find f (filter g (seq a n)) = Some x <->
  (a <= x < a + n /\ g x = true /\ f x = true /\
   forall y, a <= y -> y < x -> g y = true -> f y = false).
Proof.
  revert a. induction n as [|n IH]; intros a; simpl.
  - split; [discriminate | lia].
  - assert (Hrec : find f (filter g (seq (S a) n)) = Some x <->
              (a < x < a + S n /\ g x = true /\ f x = true /\
               forall y, a < y -> y < x -> g y = true -> f y = false)).
    { rewrite IH. intuition lia || auto. }
    destruct (g a) eqn:Ga; simpl; [destruct (f a) eqn:Fa|].
    + split.
      * intros [= <-].
        split; [lia | split; [exact Ga | split; [exact Fa|]]].
        intros y H1 H2. lia.
      * intros [Hr [Gx [Fx Hmin]]].
        destruct (Nat.eq_dec a x) as [-> | Hne]; [reflexivity|].
        rewrite (Hmin a) in Fa; [discriminate | lia | lia | exact Ga].
    + rewrite Hrec. split; intros [Hr [Gx [Fx Hmin]]].
      * split; [lia | split; [exact Gx | split; [exact Fx|]]].
        intros y H1 H2 Gy.
        destruct (Nat.eq_dec y a) as [-> | Hne]; [exact Fa|].
        apply Hmin; [lia | lia | exact Gy].
      * assert (a <> x) by congruence.
        split; [lia | split; [exact Gx | split; [exact Fx|]]].
        intros y H1 H2 Gy. apply Hmin; [lia | lia | exact Gy].
    + rewrite Hrec. split; intros [Hr [Gx [Fx Hmin]]].
      * split; [lia | split; [exact Gx | split; [exact Fx|]]].
        intros y H1 H2 Gy.
        destruct (Nat.eq_dec y a) as [-> | Hne]; [congruence|].
        apply Hmin; [lia | lia | exact Gy].
      * assert (a <> x) by congruence.
        split; [lia | split; [exact Gx | split; [exact Fx|]]].
        intros y H1 H2 Gy. apply Hmin; [lia | lia | exact Gy].
Qed.

Lemma find_filter_seq_none (g f : nat -> bool) (a n : nat) :
  find f (filter g (seq a n)) = None <->
  forall y, a <= y < a + n -> g y = true -> f y = false.
Proof.
  split.
  - intros H y Hy Gy. apply (find_none _ _ H).
    apply filter_In. split; [apply in_seq; exact Hy | exact Gy].
  - intros H. destruct (find f (filter g (seq a n))) as [x|] eqn:E;
      [|reflexivity].
    apply find_some in E. destruct E as [Hin Fx].
    apply filter_In in Hin. destruct Hin as [Hin Gx]. apply in_seq in Hin.
    rewrite (H x Hin Gx) in Fx. discriminate.
Qed.

Lemma iloc_ok (df : DataFrame) (i : nat) (row : Series) :
  iloc df i = Ok row <->
  exists r, nth_error df i = Some r /\ row = pad (width df) r.
Proof.
  unfold iloc. rewrite rows_nth_error.
  destruct (nth_error df i) as [r|]; simpl.
  - split; [intros [= <-]; eauto | intros [r' [[= <-] ->]]; reflexivity].
  - split; [discriminate | intros [r' [E _]]; discriminate].
Qed.

Lemma iloc_length (df : DataFrame) (i : nat) (row : Series) :
  iloc df i = Ok row -> length row = width df.
Proof.
  intros H. apply iloc_ok in H. destruct H as [r [Hr ->]].
  apply pad_length, width_ge. apply (nth_error_In _ i). exact Hr.
Qed.

Lemma pass1_find (df : DataFrame) (header_idx cpf : nat)
    (header_row : Series) :
  length header_row = width df ->
  pass1 df header_idx cpf header_row
  = Ok (find (fun col => has_text (column (data_rows df header_idx) col))
             (blank_header_cols header_row cpf)).
Proof.
  intros Hlen. unfold pass1. apply first_text_column_find.
  apply Forall_forall. intros col Hin.
  apply blank_header_cols_in in Hin. destruct Hin as [_ [v [Hv _]]].
  rewrite <- Hlen. apply nth_error_Some. congruence.
Qed.

Lemma pass2_find (w cpf : nat) (data : list Series) :
  cpf <= w ->
  first_text_column w data (seq 0 cpf)
  = Ok (find (fun col => has_text (column data col)) (seq 0 cpf)).
Proof.
  intros H. apply first_text_column_find.
  apply Forall_forall. intros col Hin. apply in_seq in Hin. lia.
Qed.

(** [find_name_column] in terms of its two searches. *)
Lemma find_name_column_eq (df : DataFrame) (header_idx cpf : nat)
    (header_row : Series) :
  find_name_column df header_idx cpf header_row =
  if cpf <=? 0 then Ok None
  else
    found <- pass1 df header_idx cpf header_row ;;
    match found with
    | Some col => Ok (Some col)
    | None =>
        first_text_column (width df) (data_rows df header_idx) (seq 0 cpf)
    end.
Proof. reflexivity. Qed.

Lemma find_name_column_ok (df : DataFrame) (header_idx cpf : nat)
    (header_row : Series) :
  length header_row = width df -> cpf <= width df ->
  exists found, find_name_column df header_idx cpf header_row = Ok found.
Proof.
  intros Hlen Hcpf. rewrite find_name_column_eq.
  destruct (cpf <=? 0); [eauto|].
  rewrite (pass1_find df header_idx cpf header_row Hlen). cbn [bind].
  destruct (find _ _); [eauto|].
  rewrite (pass2_find _ _ _ Hcpf). eauto.
Qed.

(* ================================================================== *)
(** ** Header labels *)

Section Labels.

Variable U : unicode_data.

Lemma next_label_from (row : Series) (k i : nat) (l : str) :
  next_label (header_labels_from U k row) l = Some i ->
  exists s, k <= i /\ nth_error row (i - k) = Some (CStr s) /\
            upper U (strip s) = l.
Proof.
  revert k. induction row as [|v row IH]; intros k; simpl; [discriminate|].
  assert (Hrest : next_label (header_labels_from U (S k) row) l = Some i ->
            exists s, k <= i /\ nth_error (v :: row) (i - k) = Some (CStr s) /\
                      upper U (strip s) = l).
  { intros H. destruct (IH (S k) H) as [s [Hle [Hn Hs]]].
    exists s. split; [lia|]. split; [|exact Hs].
    replace (i - k) with (S (i - S k)) by lia. exact Hn. }
  destruct v as [|f|n|s| |text]; try exact Hrest.
  simpl. destruct (str_eqb (upper U (strip s)) l) eqn:E; [|exact Hrest].
  intros [= <-]. exists s. split; [lia|]. rewrite Nat.sub_diag.
  split; [reflexivity | apply str_eqb_eq; exact E].
Qed.

(** A resolved label is the cleaned text of a text cell of the header. *)
Lemma next_label_some (header_row : Series) (i : nat) (l : str) :
  next_label (header_labels U header_row) l = Some i ->
  exists s, nth_error header_row i = Some (CStr s) /\ upper U (strip s) = l.
Proof.
  intros H. apply next_label_from in H. destruct H as [s [_ [Hn Hs]]].
  rewrite Nat.sub_0_r in Hn. eauto.
Qed.

Lemma next_label_lt (header_row : Series) (i : nat) (l : str) :
  next_label (header_labels U header_row) l = Some i ->
  i < length header_row.
Proof.
  intros H. apply next_label_some in H. destruct H as [s [Hn _]].
  apply nth_error_Some. congruence.
Qed.

(** No text cell of the header cleans to [l]: the label is unresolved. *)
Lemma next_label_none (header_row : Series) (l : str) :
  (forall s, In (CStr s) header_row -> upper U (strip s) <> l) ->
  next_label (header_labels U header_row) l = None.
Proof.
  intros H. destruct (next_label _ l) as [i|] eqn:E; [|reflexivity].
  apply next_label_some in E. destruct E as [s [Hn Hs]].
  exfalso. apply (H s); [apply (nth_error_In _ i); exact Hn | exact Hs].
Qed.

End Labels.

(* ================================================================== *)
(** ** [extract_rows_from_sheet] *)

Section Extract.

Variable U : unicode_data.

Lemma find_header_row_in (df : DataFrame) (h : nat) :
  find_header_row U df = Some h -> exists r, nth_error df h = Some r.
Proof.
  intros H. apply find_header_row_first in H.
  destruct H as [[r [Hr _]] _]. eauto.
Qed.

(** On a sheet that resolves, the result is that of the loop over the
    rows below the header. *)
Lemma extract_resolved (df : DataFrame) (h : nat) (c : Columns) :
  resolved U df h c ->
  extract_rows_from_sheet U df = rows_loop U c (data_rows df h) [].
Proof.
  intros [Hh [hr [Hi [Hcpf [Hb [Ha [Hconta [Ht [Hv Hname]]]]]]]]].
  unfold extract_rows_from_sheet. rewrite Hh, Hi. cbn [bind].
  rewrite Hcpf, Hb, Ha. cbv iota beta. rewrite <- Hconta, Hname.
  cbn [bind]. rewrite <- Ht, <- Hv. destruct c; reflexivity.
Qed.

(** A sheet either yields nothing or resolves; it raises in no case. *)
Lemma extract_cases (df : DataFrame) :
  extract_rows_from_sheet U df = Ok [] \/ exists h c, resolved U df h c.
Proof.
  unfold extract_rows_from_sheet.
  destruct (find_header_row U df) as [h|] eqn:Hh; [|left; reflexivity].
  destruct (find_header_row_in df h Hh) as [r Hr].
  assert (Hi : iloc df h = Ok (pad (width df) r)) by (apply iloc_ok; eauto).
  pose proof (iloc_length df h _ Hi) as Hlen.
  rewrite Hi. cbn [bind]. set (hr := pad (width df) r) in *.
  destruct (next_label (header_labels U hr) (lit "CPF")) as [cpf|] eqn:Hcpf;
    [|left; reflexivity].
  destruct (next_label (header_labels U hr) (lit "BANCO")) as [banco|]
    eqn:Hb; [|left; reflexivity].
  destruct (next_label (header_labels U hr) (lit "AGENCIA")) as [agencia|]
    eqn:Ha; [|left; reflexivity].
  cbv iota beta.
  destruct (find_name_column_ok df h cpf hr Hlen) as [found Hf].
  { apply next_label_lt in Hcpf. lia. }
  rewrite Hf. cbn [bind]. destruct found as [name|]; [|left; reflexivity].
  right. exists h.
  exists (mkColumns name cpf banco agencia
            match next_label (header_labels U hr) (lit "CONTA") with
            | None => agencia + 1
            | Some i => i
            end
            (next_label (header_labels U hr) (lit "CHAVE PIX"))
            (next_label (header_labels U hr) (lit "PIX"))).
  split; [exact Hh|]. exists hr. cbn.
  repeat (split; [first [assumption | reflexivity]|]). exact Hf.
Qed.

Lemma extract_row_acc (c : Columns) (records : list PixRecord)
    (row : Series) :
  extract_row U c records row =
  (new <- extract_row U c [] row ;; Ok (records ++ new)).
Proof.
  destruct (extract_row_cases U c [] row) as [E | [r [E _]]];
    rewrite E; cbn [bind].
  - rewrite app_nil_r. rewrite extract_row_eq in *.
    destruct (_ || _); [reflexivity|].
    destruct (negb _); [reflexivity|].
    destruct (numeric_or_string U _) as [cod|e]; [|discriminate].
    cbn [bind] in *.
    destruct (if str_isdigit U _ then _ else _) as [chave|e];
      [|discriminate].
    cbn [bind] in *. discriminate.
  - rewrite extract_row_eq in *.
    destruct (_ || _); [discriminate|].
    destruct (negb _); [discriminate|].
    destruct (numeric_or_string U _) as [cod|e]; [|discriminate].
    cbn [bind] in *.
    destruct (if str_isdigit U _ then _ else _) as [chave|e];
      [|discriminate].
    cbn [bind] in *. injection E as <-. reflexivity.
Qed.

Lemma rows_loop_acc (c : Columns) (data : list Series)
    (records : list PixRecord) :
  rows_loop U c data records =
  (new <- rows_loop U c data [] ;; Ok (records ++ new)).
Proof.
  revert records. induction data as [|row data IH]; intros records; simpl.
  - rewrite app_nil_r. reflexivity.
  - rewrite (extract_row_acc c records row).
    destruct (extract_row U c [] row) as [new|e]; cbn [bind];
      [|reflexivity].
    rewrite (IH (records ++ new)), (IH new).
    destruct (rows_loop U c data []) as [more|e]; cbn [bind];
      [|reflexivity].
    rewrite app_assoc. reflexivity.
Qed.

(** A row the loop body skips contributes nothing: the result is what
    the rows above it give, followed by what the rows below it give. *)
Lemma skipped_row (df : DataFrame) (h : nat) (c : Columns)
    (above : list Series) (row : Series) (below : list Series) :
  resolved U df h c ->
  data_rows df h = above ++ row :: below ->
  (forall records, extract_row U c records row = Ok records) ->
  exists first last,
    rows_loop U c above [] = Ok first /\
    rows_loop U c below [] = Ok last /\
    extract_rows_from_sheet U df = Ok (first ++ last).
Proof.
  intros Hres Hdata Hskip.
  rewrite (extract_resolved df h c Hres), Hdata, rows_loop_app.
  destruct (rows_loop_emits U c above []) as [first [Hfirst _]].
  destruct (rows_loop_emits U c below []) as [last [Hlast _]].
  simpl in Hfirst, Hlast. exists first, last.
  split; [exact Hfirst|]. split; [exact Hlast|].
  rewrite Hfirst. cbn [bind rows_loop]. rewrite Hskip. cbn [bind].
  rewrite rows_loop_acc, Hlast. reflexivity.
Qed.

(** Every record of the result was built from a row below the header. *)
Lemma extract_emits (df : DataFrame) :
  exists records,
    extract_rows_from_sheet U df = Ok records /\
    Forall (fun r => exists h c row,
                       resolved U df h c /\ In row (data_rows df h) /\
                       emitted_from U c row r) records.
Proof.
  destruct (extract_cases df) as [E | [h [c Hres]]].
  - exists []. split; [exact E | constructor].
  - rewrite (extract_resolved df h c Hres).
    destruct (rows_loop_emits U c (data_rows df h) []) as [new [E Hnew]].
    exists new. split; [exact E|].
    eapply Forall_impl; [|exact Hnew].
    intros r [row [Hin Hr]]. exists h, c, row. auto.
Qed.

Lemma resolved_unique (df : DataFrame) (h h' : nat) (c c' : Columns) :
  resolved U df h c -> resolved U df h' c' -> h = h' /\ c = c'.
Proof.
  intros [Hh [hr [Hi [Hcpf [Hb [Ha [Hconta [Ht [Hv Hname]]]]]]]]]
         [Hh' [hr' [Hi' [Hcpf' [Hb' [Ha' [Hconta' [Ht' [Hv' Hname']]]]]]]]].
  assert (h = h') as <- by congruence. split; [reflexivity|].
  assert (hr = hr') as <- by congruence.
  destruct c, c'; simpl in *.
  assert (cpf_idx0 = cpf_idx1) as <- by congruence.
  assert (banco_idx0 = banco_idx1) as <- by congruence.
  assert (agencia_idx0 = agencia_idx1) as <- by congruence.
  assert (name_idx0 = name_idx1) as <- by congruence.
  congruence.
Qed.

(** C3. When a header row is found but no cell of it, stripped and
    upper-cased, is exactly "BANCO", or none is exactly "AGENCIA",
    [extract_rows_from_sheet] returns the empty list and raises
    nothing. *)
Theorem missing_label_yields_nothing (df : DataFrame) (h : nat)
    (header_row : list cell) :
  find_header_row U df = Some h ->
  nth_error df h = Some header_row ->
  (forall s, In (CStr s) header_row -> upper U (strip s) <> lit "BANCO") \/
  (forall s, In (CStr s) header_row -> upper U (strip s) <> lit "AGENCIA") ->
  extract_rows_from_sheet U df = Ok [].
Proof.
  intros Hh Hrow Hmiss.
  assert (Hi : iloc df h = Ok (pad (width df) header_row))
    by (apply iloc_ok; eauto).
  unfold extract_rows_from_sheet. rewrite Hh, Hi. cbn [bind].
  destruct (next_label _ (lit "CPF")) as [cpf|]; [|reflexivity].
  destruct Hmiss as [Hmiss | Hmiss].
  - rewrite (next_label_none U _ (lit "BANCO")); [reflexivity|].
    intros s Hin. apply Hmiss. apply (in_pad_str (width df)). exact Hin.
  - rewrite (next_label_none U _ (lit "AGENCIA")).
    + destruct (next_label _ (lit "BANCO")); reflexivity.
    + intros s Hin. apply Hmiss. apply (in_pad_str (width df)). exact Hin.
Qed.

(** C7. On a sheet that resolves, a row below the header whose
    normalized name, upper-cased, starts with "TOTAL" yields no record,
    whatever its other cells hold: the result is made of the records of
    the rows above it and those of the rows below it. *)
Theorem total_row_excluded (df : DataFrame) (h : nat) (c : Columns)
    (above : list Series) (row : Series) (below : list Series) :
  resolved U df h c ->
  data_rows df h = above ++ row :: below ->
  starts_with_total U (cleaned (row_get row (name_idx c))) ->
  exists first last,
    rows_loop U c above [] = Ok first /\
    rows_loop U c below [] = Ok last /\
    extract_rows_from_sheet U df = Ok (first ++ last).
Proof.
  intros Hres Hdata Htotal.
  apply (skipped_row df h c above row below Hres Hdata).
  intros records. apply extract_row_skips_name. right. exact Htotal.
Qed.

(** C8. On a sheet that resolves, a row below the header whose
    normalized name is non-empty and does not start with "TOTAL", but
    whose seven other normalized fields are all empty, yields no record:
    the name is not one of the fields the emptiness test looks at. *)
Theorem name_only_row_excluded (df : DataFrame) (h : nat) (c : Columns)
    (above : list Series) (row : Series) (below : list Series) :
  resolved U df h c ->
  data_rows df h = above ++ row :: below ->
  cleaned (row_get row (name_idx c)) <> [] ->
  ~ starts_with_total U (cleaned (row_get row (name_idx c))) ->
  Forall (fun f => f = []) (payment_fields c row) ->
  exists first last,
    rows_loop U c above [] = Ok first /\
    rows_loop U c below [] = Ok last /\
    extract_rows_from_sheet U df = Ok (first ++ last).
Proof.
  intros Hres Hdata _ _ Hblank.
  apply (skipped_row df h c above row below Hres Hdata).
  intros records. apply extract_row_skips_blank. exact Hblank.
Qed.

(** C10. [extract_rows_from_sheet] raises for no sheet, and every
    record of its result has a non-empty name that, upper-cased, does
    not start with "TOTAL", and at least one non-empty field among CPF,
    bank code, bank name, branch, account, key type and key value. *)
Theorem extract_records_valid (df : DataFrame) :
  exists records,
    extract_rows_from_sheet U df = Ok records /\
    Forall (valid_record U) records.
Proof.
  destruct (extract_emits df) as [records [E Hall]].
  exists records. split; [exact E|].
  eapply Forall_impl; [|exact Hall].
  intros r [h [c [row [_ [_ Hr]]]]]. exact (emitted_valid U c row r Hr).
Qed.

End Extract.

Section Sheets.

Variable U : unicode_data.

Lemma scenario_resolved (cod x : cell) :
  resolved U (scenario cod x) 0 (mkColumns 1 2 4 6 7 (Some 8) (Some 9)).
Proof.
  split; [reflexivity|]. eexists. split; [reflexivity|].
  repeat (split; [reflexivity|]). reflexivity.
Qed.

Lemma scenario_data (cod x : cell) :
  data_rows (scenario cod x) 0
  = [[nan; txt "Maria Silva"; txt "11122233344"; cod; txt "Banco X"; x;
      txt "0001"; txt "12345"; txt "CPF"; txt "11122233344"]].
Proof. reflexivity. Qed.

(** C1 (as the code has it). For the scenario sheet, whatever cell [cod]
    stands under "COD BANCO" (the integer 1 in the scenario) and
    whatever cell [x] stands right of the "BANCO" column,
    [extract_rows_from_sheet] returns exactly one record: NOME
    "Maria Silva", CPF "11122233344", COD BANCO the text "Banco X" (the
    cell under "BANCO"), BANCO the normalized text of [x], AGENCIA
    "0001", CONTA "12345", TIPO CHAVE PIX "CPF", CHAVE PIX the integer
    11122233344.  The cell under "COD BANCO" is not read. *)
Theorem scenario_extract (cod x : cell) :
  extract_rows_from_sheet U (scenario cod x) = Ok [scenario_record x].
Proof.
  rewrite (extract_resolved U _ _ _ (scenario_resolved cod x)).
  rewrite scenario_data. cbn [rows_loop]. rewrite extract_row_eq.
  reflexivity.
Qed.

(** C2 (as the code has it). On a sheet with header row [h] and CPF
    column [cpf > 0], pass 1 of [find_name_column] considers exactly the
    columns left of [cpf] whose header cell is a missing value (None,
    NaN or another missing marker); a header cell that is text, be it
    of blanks only, is never among them.  Pass 1 raises nothing and
    returns the first of these columns, in ascending order, that holds a
    non-blank text in some row below the header, and that column is then
    the result of [find_name_column]. *)
Theorem pass1_blank_headers (df : DataFrame) (h cpf : nat)
    (header_row : Series) :
  iloc df h = Ok header_row ->
  next_label (header_labels U header_row) (lit "CPF") = Some cpf ->
  0 < cpf ->
  (forall col, In col (blank_header_cols header_row cpf) <->
               col < cpf /\ missing_header header_row col) /\
  (forall col s, nth_error header_row col = Some (CStr s) ->
                 ~ In col (blank_header_cols header_row cpf)) /\
  (forall col,
     pass1 df h cpf header_row = Ok (Some col) <->
     col < cpf /\ missing_header header_row col /\
     column_has_text (data_rows df h) col /\
     forall col', col' < col -> missing_header header_row col' ->
                  ~ column_has_text (data_rows df h) col') /\
  (pass1 df h cpf header_row = Ok None <->
   forall col, col < cpf -> missing_header header_row col ->
               ~ column_has_text (data_rows df h) col) /\
  (forall col, pass1 df h cpf header_row = Ok (Some col) ->
               find_name_column df h cpf header_row = Ok (Some col)).
Proof.
  intros Hi Hcpf Hpos.
  pose proof (iloc_length df h header_row Hi) as Hlen.
  assert (Htext : forall col,
            has_text (column (data_rows df h) col) = false <->
            ~ column_has_text (data_rows df h) col).
  { intros col. rewrite <- has_text_column_iff.
    destruct (has_text _); split; congruence. }
  split; [apply blank_header_cols_in|]. split; [|split; [|split]].
  - intros col s Hn Hin. apply blank_header_cols_in in Hin.
    destruct Hin as [_ [v [Hv [E | [E | E]]]]]; unfold nan in E; congruence.
  - intros col. rewrite (pass1_find df h cpf header_row Hlen).
    unfold blank_header_cols.
    split.
    + intros [= E]. apply find_filter_seq_some in E.
      destruct E as [Hr [Hb [Ht Hmin]]].
      split; [lia|]. split; [apply blank_header_iff; exact Hb|].
      split; [apply has_text_column_iff; exact Ht|].
      intros col' Hlt Hm. apply Htext.
      apply Hmin; [lia | exact Hlt | apply blank_header_iff; exact Hm].
    + intros [Hr [Hm [Ht Hmin]]]. f_equal.
      apply find_filter_seq_some.
      split; [lia|]. split; [apply blank_header_iff; exact Hm|].
      split; [apply has_text_column_iff; exact Ht|].
      intros y _ Hlt Hb. apply Htext.
      apply Hmin; [exact Hlt | apply blank_header_iff; exact Hb].
  - rewrite (pass1_find df h cpf header_row Hlen). unfold blank_header_cols.
    split.
    + intros [= E] col Hlt Hm. apply Htext.
      apply (proj1 (find_filter_seq_none _ _ _ _) E col); [lia|].
      apply blank_header_iff. exact Hm.
    + intros H. f_equal. apply find_filter_seq_none.
      intros y Hy Hb. apply Htext.
      apply H; [lia | apply blank_header_iff; exact Hb].
  - intros col E. rewrite find_name_column_eq.
    destruct (cpf <=? 0) eqn:Hz; [apply Nat.leb_le in Hz; lia|].
    rewrite E. reflexivity.
Qed.

End Sheets.

(* ================================================================== *)
(** ** The example sheets *)

Lemma ledger_resolved : resolved latin1 ledger 1 ledger_columns.
Proof.
  split; [reflexivity|]. eexists. split; [reflexivity|].
  repeat (split; [reflexivity|]). reflexivity.
Qed.

(** The scenario does not yield the record it is said to yield, whatever
    stands in the column right of "BANCO": the bank code of the record
    is the text "Banco X", not the integer 1. *)
Lemma scenario_not_expected :
  ~ exists (U : unicode_data) (x : cell),
      extract_rows_from_sheet U (scenario (CInt (int_lit 1)) x)
      = Ok [scenario_expected].
Proof.
  intros [U [x E]].
  rewrite (extract_resolved U _ _ _ (scenario_resolved U (CInt (int_lit 1)) x)) in E.
  rewrite scenario_data in E. cbn [rows_loop] in E.
  rewrite extract_row_eq in E. vm_compute in E. discriminate E.
Qed.

(** On [spaced_header] the first header cell is a text of blanks and its
    column holds a name; pass 1 as specified would return column 0, and
    pass 1 of the code returns column 1. *)
Lemma pass1_skips_blank_text_header :
  find_header_row latin1 spaced_header = Some 0 /\
  iloc spaced_header 0 = Ok spaced_header_row /\
  next_label (header_labels latin1 spaced_header_row) (lit "CPF") = Some 2 /\
  spec_blank_header spaced_header_row 0 = true /\
  spec_pass1 spaced_header 0 2 spaced_header_row = Some 0 /\
  pass1 spaced_header 0 2 spaced_header_row = Ok (Some 1) /\
  pass1 spaced_header 0 2 spaced_header_row
    <> Ok (spec_pass1 spaced_header 0 2 spaced_header_row).
Proof.
  repeat (split; [reflexivity|]). vm_compute. discriminate.
Qed.

Lemma pass1_blank_headers_witness :
  find_name_column ledger 1 1
    [nan; txt "cpf"; txt " Banco "; nan; txt "agencia"; txt "PIX"]
  = Ok (Some 0).
Proof.
  apply (proj2 (proj2 (proj2 (proj2
           (pass1_blank_headers latin1 ledger 1 1
              [nan; txt "cpf"; txt " Banco "; nan; txt "agencia"; txt "PIX"]
              eq_refl eq_refl (le_n 1)))))).
  reflexivity.
Defined.

Lemma missing_label_witness :
  extract_rows_from_sheet latin1 no_banco = Ok [].
Proof.
  apply (missing_label_yields_nothing latin1 no_banco 0
           [nan; txt "CPF"; txt "COD BANCO"; txt "AGENCIA"]).
  - reflexivity.
  - reflexivity.
  - left. intros s Hin. simpl in Hin.
    destruct Hin as [E | [E | [E | [E | []]]]];
      try discriminate E; injection E as <-; vm_compute; discriminate.
Defined.

Lemma total_row_witness :
  exists first last,
    rows_loop latin1 ledger_columns (firstn 1 (data_rows ledger 1)) []
      = Ok first /\
    rows_loop latin1 ledger_columns (skipn 2 (data_rows ledger 1)) []
      = Ok last /\
    extract_rows_from_sheet latin1 ledger = Ok (first ++ last).
Proof.
  apply (total_row_excluded latin1 ledger 1 ledger_columns
           (firstn 1 (data_rows ledger 1))
           [txt "Total geral"; txt "999"; CInt (int_lit 1); txt "x"; CInt (int_lit 2); txt "y"]
           (skipn 2 (data_rows ledger 1))).
  - exact ledger_resolved.
  - reflexivity.
  - exists (lit " GERAL"). reflexivity.
Defined.

Lemma name_only_row_witness :
  exists first last,
    rows_loop latin1 ledger_columns (firstn 2 (data_rows ledger 1)) []
      = Ok first /\
    rows_loop latin1 ledger_columns (skipn 3 (data_rows ledger 1)) []
      = Ok last /\
    extract_rows_from_sheet latin1 ledger = Ok (first ++ last).
Proof.
  apply (name_only_row_excluded latin1 ledger 1 ledger_columns
           (firstn 2 (data_rows ledger 1))
           [txt "Rui Sa"; nan; nan; nan; nan; nan]
           (skipn 3 (data_rows ledger 1))).
  - exact ledger_resolved.
  - reflexivity.
  - vm_compute. discriminate.
  - intros [t E]. vm_compute in E. discriminate E.
  - repeat constructor.
Defined.

(* ================================================================== *)
(** ** Runs of the model *)

(** The ledger sheet: the title row is not a header, the header is
    found through "cpf", the account column defaults to the column
    right of "agencia" (here the "PIX" column), and the totals row and
    the row with a name only are left out. *)
Example ledger_extract :
  extract_rows_from_sheet latin1 ledger
  = Ok [mkRecord (lit "Ana Lima") (lit "123") (VInt 341) (lit "Itau")
                 (lit "12") (lit "a@b.c") [] (VStr (lit "a@b.c"));
        mkRecord (lit "Bia Reis") (lit "1200") (VInt 45) [] []
                 (lit "0119") [] (VInt 119)].
Proof. reflexivity. Qed.

(** A superscript two is a digit for [isdigit] and no decimal digit for
    [int]: the text comes back unchanged, through [ValueError]. *)
Example superscript_kept :
  str_isdigit latin1 [0xB2%N] = true /\
  int_of_digits latin1 [0xB2%N] = Raise ValueError /\
  numeric_or_string latin1 [0xB2%N] = Ok (VStr [0xB2%N]).
Proof. repeat split; reflexivity. Qed.

(** Cells of each kind through [clean_value]. *)
Example clean_value_runs :
  clean_value (CInt (int_lit (-7))) = Ok (lit "-7") /\
  clean_value (txt "  Ana  Lima ") = Ok (lit "Ana  Lima") /\
  clean_value (CFloat (float_lit (S754_zero true))) = Ok (lit "0") /\
  clean_value (CFloat (float_lit (S754_infinity false))) = Ok (lit "inf") /\
  clean_value (CFloat (float_lit (S754_finite true 6755399441055744 (-53))))
    = Ok (lit "-0.75") /\
  clean_value (COther (lit "2024-01-31 00:00:00"))
    = Ok (lit "2024-01-31 00:00:00").
Proof. repeat split; reflexivity. Qed.

(* ================================================================== *)
(** ** Normal forms of [clean_value] *)

Lemma lstrip_head (s t : str) (c : N) :
  lstrip s = c :: t -> isspace c = false.
Proof.
  induction s as [|x s IH]; simpl; [discriminate|].
  destruct (isspace x) eqn:E; [exact IH|].
  intros [= <- _]. exact E.
Qed.

Lemma lstrip_fixed (s : str) :
  (forall c t, s = c :: t -> isspace c = false) -> lstrip s = s.
Proof.
  destruct s as [|c s]; [reflexivity|]. intros H. simpl.
  rewrite (H c s eq_refl). reflexivity.
Qed.

Lemma lstrip_idem (s : str) : lstrip (lstrip s) = lstrip s.
Proof.
  apply lstrip_fixed. intros c t E. exact (lstrip_head s t c E).
Qed.

Lemma rstrip_snoc (s : str) (c : N) :
  rstrip (s ++ [c]) = if isspace c then rstrip s else s ++ [c].
Proof.
  unfold rstrip. rewrite rev_app_distr. simpl.
  destruct (isspace c); [reflexivity|].
  simpl. rewrite rev_involutive. reflexivity.
Qed.

Lemma rstrip_cons (c : N) (s : str) :
  isspace c = false -> rstrip (c :: s) = c :: rstrip s.
Proof.
  intros Hc. induction s as [|d s IH] using rev_ind.
  - change [c] with ([] ++ [c]). rewrite rstrip_snoc, Hc. reflexivity.
  - rewrite app_comm_cons, !rstrip_snoc.
    destruct (isspace d); [exact IH | reflexivity].
Qed.

Lemma rstrip_idem (s : str) : rstrip (rstrip s) = rstrip s.
Proof.
  unfold rstrip. rewrite rev_involutive, lstrip_idem. reflexivity.
Qed.

Lemma rstrip_last (s t : str) (c : N) :
  rstrip s = t ++ [c] -> isspace c = false.
Proof.
  unfold rstrip. intros E.
  apply (f_equal (@rev N)) in E.
  rewrite rev_involutive, rev_app_distr in E. simpl in E.
  exact (lstrip_head _ _ _ E).
Qed.

Lemma strip_head (s t : str) (c : N) :
  strip s = c :: t -> isspace c = false.
Proof.
  unfold strip. destruct (lstrip s) as [|x u] eqn:E.
  - discriminate.
  - pose proof (lstrip_head s u x E) as Hx.
    rewrite (rstrip_cons x u Hx). intros [= <- _]. exact Hx.
Qed.

Lemma strip_last (s t : str) (c : N) :
  strip s = t ++ [c] -> isspace c = false.
Proof. unfold strip. apply rstrip_last. Qed.

Lemma strip_idem (s : str) : strip (strip s) = strip s.
Proof.
  unfold strip at 1.
  rewrite (lstrip_fixed (strip s)) by (intros c t E; exact (strip_head s t c E)).
  unfold strip. apply rstrip_idem.
Qed.

(** A text without blanks is left as it is. *)
Lemma strip_no_space (s : str) :
  Forall (fun c => isspace c = false) s -> strip s = s.
Proof.
  intros H. unfold strip.
  assert (Hl : lstrip s = s).
  { apply lstrip_fixed. intros c t ->. inversion H; assumption. }
  rewrite Hl. unfold rstrip.
  rewrite lstrip_fixed; [apply rev_involutive|].
  intros c t E. apply (proj1 (Forall_forall (fun c => isspace c = false) s) H).
  apply in_rev. rewrite E. left. reflexivity.
Qed.

Lemma uint_str_no_space (d : Decimal.uint) :
  Forall (fun c => isspace c = false) (uint_str d).
Proof. induction d; simpl; constructor; (reflexivity || assumption). Qed.

Lemma str_of_int_no_space (z : Z) :
  Forall (fun c => isspace c = false) (str_of_int z).
Proof.
  destruct z as [|p|p]; simpl.
  - repeat constructor.
  - apply uint_str_no_space.
  - constructor; [reflexivity | apply uint_str_no_space].
Qed.

Lemma cleaned_stripped (value : cell) : strip (cleaned value) = cleaned value.
Proof.
  unfold cleaned.
  destruct value as [|f|n|s| |text];
    try reflexivity; try apply strip_idem.
  - rewrite clean_value_float.
    destruct (isnan (float_val f)); [reflexivity|].
    destruct (is_integer (float_val f)); [|apply strip_idem].
    destruct (int_of_float (float_val f)); [|reflexivity].
    apply strip_no_space, str_of_int_no_space.
  - rewrite clean_value_int. apply strip_no_space, str_of_int_no_space.
Qed.

(** X1. The text a cell normalizes to never begins or ends with a blank
    character, and normalizing it again, as a text cell, gives it back:
    [clean_value] is idempotent. *)
Theorem clean_value_idempotent (value : cell) :
  (forall c t, cleaned value = c :: t -> isspace c = false) /\
  (forall t c, cleaned value = t ++ [c] -> isspace c = false) /\
  clean_value (CStr (cleaned value)) = clean_value value.
Proof.
  pose proof (cleaned_stripped value) as H. split; [|split].
  - intros c t E. rewrite <- H in E. exact (strip_head _ _ _ E).
  - intros t c E. rewrite <- H in E. exact (strip_last _ _ _ E).
  - rewrite (clean_value_ok value). simpl. rewrite H. reflexivity.
Qed.

(* ================================================================== *)
(** ** [numeric_or_string] on the texts of numbers *)

Section Numbers.

Variable U : unicode_data.

Lemma uint_str_decimal (d : Decimal.uint) : all_decimal U (uint_str d).
Proof. induction d; simpl; constructor; (discriminate || assumption). Qed.

Lemma uint_str_nil (d : Decimal.uint) : uint_str d = [] -> d = Decimal.Nil.
Proof. destruct d; simpl; (reflexivity || discriminate). Qed.

(** [int] reads the digits [str] wrote. *)
Lemma int_loop_uint (d : Decimal.uint) (acc : Z) :
  int_loop U acc (uint_str d)
  = Ok (acc * 10 ^ Z.of_N (Unsigned.usize d)
        + Z.of_N (Unsigned.of_lu (Decimal.rev d)))%Z.
Proof.
  revert acc.
  induction d as [|d IH|d IH|d IH|d IH|d IH|d IH|d IH|d IH|d IH|d IH];
    intros acc;
    [simpl; f_equal; lia | ..];
    cbn [uint_str int_loop];
    match goal with
    | |- context [decimal_value U ?c] =>
        let v := eval cbv in (decimal_value U c) in
        change (decimal_value U c) with v
    end;
    cbv iota beta; rewrite IH; f_equal;
    match goal with
    | |- context [Unsigned.of_lu (Decimal.rev (?k d))] =>
        let E := fresh "E" in
        pose proof (Unsigned.of_lu_revapp d (k Decimal.Nil)) as E;
        change (Decimal.revapp d (k Decimal.Nil))
          with (Decimal.rev (k d)) in E;
        rewrite E; clear E;
        let v := eval cbv in (Unsigned.of_lu (k Decimal.Nil)) in
        change (Unsigned.of_lu (k Decimal.Nil)) with v
    end;
    cbn [Unsigned.usize];
    rewrite N2Z.inj_add, N2Z.inj_mul, N2Z.inj_pow, N2Z.inj_succ,
            Z.pow_succ_r by lia;
    cbn [Z.of_N]; ring.
Qed.

Lemma int_loop_pos (p : positive) :
  int_loop U 0 (str_of_pos p) = Ok (Zpos p).
Proof.
  unfold str_of_pos. rewrite int_loop_uint.
  rewrite <- Unsigned.of_uint_alt, Unsigned.of_to. reflexivity.
Qed.

Lemma numeric_or_string_decimal (v : str) (n : Z) :
  v <> [] -> all_decimal U v -> length v <= int_max_str_digits ->
  int_loop U 0 v = Ok n ->
  numeric_or_string U v = Ok (VInt n).
Proof.
  intros Hne Hd Hl Hn. destruct v as [|c v]; [congruence|].
  unfold numeric_or_string. cbn [is_empty].
  rewrite (filter_all _ _ _ (all_decimal_isdigit U _ Hd)).
  rewrite Nat.eqb_refl. cbn [is_empty negb andb].
  rewrite (int_of_digits_short U _ _ Hl), Hn. reflexivity.
Qed.

(** The text of a non-negative integer within the limit comes back as
    that integer. *)
Lemma numeric_or_string_str (n : Z) :
  (0 <= n)%Z -> int_digits n <= int_max_str_digits ->
  numeric_or_string U (str_of_int n) = Ok (VInt n).
Proof.
  intros Hn Hl. destruct n as [|p|p]; [reflexivity | | lia].
  cbn [str_of_int]. apply numeric_or_string_decimal.
  - intros E. apply uint_str_nil in E.
    exact (Unsigned.to_uint_nonnil p E).
  - apply uint_str_decimal.
  - exact Hl.
  - apply int_loop_pos.
Qed.

(** X2. The text of a non-negative integer of at most 4300 digits
    comes back from [numeric_or_string] as that integer; the text of a
    longer one, and the text of a negative one, come back as text.  So
    a bank code held in an integer cell, or in a float cell with an
    integer value, is the same integer in the record when it is not
    negative: the int of a cell stays within the limit, and so does the
    integer value of a binary64 float. *)
Theorem numeric_or_string_of_int :
  (forall n : N,
     int_digits (Z.of_N n) <= int_max_str_digits ->
     numeric_or_string U (str_of_int (Z.of_N n)) = Ok (VInt (Z.of_N n))) /\
  (forall n : N,
     int_max_str_digits < int_digits (Z.of_N n) ->
     numeric_or_string U (str_of_int (Z.of_N n))
     = Ok (VStr (str_of_int (Z.of_N n)))) /\
  (forall p : positive,
     numeric_or_string U (str_of_int (Zneg p))
     = Ok (VStr (str_of_int (Zneg p)))) /\
  (forall n : pyint,
     (0 <= int_val n)%Z ->
     (text <- clean_value (CInt n) ;; numeric_or_string U text)
     = Ok (VInt (int_val n))) /\
  (forall (f : pyfloat) (n : Z),
     is_integer (float_val f) = true ->
     int_of_float (float_val f) = Ok n -> (0 <= n)%Z ->
     (text <- clean_value (CFloat f) ;; numeric_or_string U text)
     = Ok (VInt n)).
Proof.
  assert (Hlen : forall n : N,
             int_digits (Z.of_N n) = length (str_of_int (Z.of_N n))).
  { intros n. unfold int_digits. rewrite Z.abs_eq by lia. reflexivity. }
  split; [|split; [|split; [|split]]].
  - intros n Hl. apply numeric_or_string_str; [lia | exact Hl].
  - intros n Hl. rewrite Hlen in Hl.
    destruct (numeric_or_string_cases U (str_of_int (Z.of_N n)))
      as [[_ [_ [Hs _]]] | [_ E]]; [lia | exact E].
  - intros p.
    destruct (numeric_or_string_cases U (str_of_int (Zneg p)))
      as [[_ [Hd _]] | [_ E]]; [|exact E].
    exfalso. simpl in Hd. inversion Hd as [|? ? Hc _]. apply Hc. reflexivity.
  - intros n Hn. rewrite clean_value_int. cbn [bind].
    apply numeric_or_string_str; [exact Hn|].
    apply Nat.leb_le. exact (int_ok n).
  - intros f n Hi Hn Hpos. rewrite clean_value_float.
    assert (isnan (float_val f) = false) as ->
      by (destruct (float_val f); (reflexivity || discriminate)).
    rewrite Hi, Hn. cbn [bind].
    apply numeric_or_string_str; [exact Hpos|].
    pose proof (str_int_float f n Hn) as Hs. unfold str_int in Hs.
    destruct (int_max_str_digits <? int_digits n) eqn:E; [discriminate|].
    apply Nat.ltb_ge in E. exact E.
Qed.

(** X3. A leading zero is lost: a text of fewer than 4300 decimal
    digits and the same text with "0" in front give the same result, so
    two key values that differ by leading zeros cannot be told apart in
    the records.  At 4300 digits the zero makes the difference: the
    text gives an integer, and with "0" in front it is past the limit
    of [int] and comes back as text. *)
Theorem leading_zero_dropped (v : str) :
  v <> [] -> all_decimal U v ->
  (length v < int_max_str_digits ->
   numeric_or_string U (48%N :: v) = numeric_or_string U v) /\
  (length v = int_max_str_digits ->
   (exists n, numeric_or_string U v = Ok (VInt n)) /\
   numeric_or_string U (48%N :: v) = Ok (VStr (48%N :: v))).
Proof.
  intros Hne Hd.
  destruct (int_loop_denotes U v [] 0%Z (denotes_nil U) Hd) as [n [Hn _]].
  split.
  - intros Hl.
    rewrite (numeric_or_string_decimal v n Hne Hd (Nat.lt_le_incl _ _ Hl) Hn).
    apply numeric_or_string_decimal.
    + discriminate.
    + constructor; [discriminate | exact Hd].
    + cbn [length]. lia.
    + exact Hn.
  - intros Hl. split.
    + exists n. apply numeric_or_string_decimal; [exact Hne | exact Hd | lia | exact Hn].
    + destruct (numeric_or_string_cases U (48%N :: v))
        as [[_ [_ [Hs _]]] | [_ E]]; [cbn [length] in Hs; lia | exact E].
Qed.

(** The [isdigit] test in front of [numeric_or_string] changes nothing. *)
Lemma isdigit_guard_redundant (v : str) :
  (if str_isdigit U v then numeric_or_string U v else Ok (VStr v))
  = numeric_or_string U v.
Proof.
  destruct (str_isdigit U v) eqn:E; [reflexivity|].
  destruct (numeric_or_string_cases U v) as [[Hne [Hd _]] | [_ H]];
    [|symmetry; exact H].
  exfalso. unfold str_isdigit in E.
  rewrite (all_decimal_isdigit U v Hd), andb_true_r in E.
  destruct v; [congruence | discriminate].
Qed.

(** X4. In every record of every sheet, COD BANCO and CHAVE PIX are what
    [numeric_or_string] makes of the normalized cell of the row the
    record comes from: the [isdigit] test on the key value has no effect
    on the result. *)
Theorem coerced_fields (df : DataFrame) :
  exists records,
    extract_rows_from_sheet U df = Ok records /\
    Forall (fun r =>
              exists h c row,
                resolved U df h c /\ In row (data_rows df h) /\
                numeric_or_string U (cleaned (row_get row (banco_idx c)))
                = Ok (COD_BANCO r) /\
                numeric_or_string U (optional_text row (chave_val_idx c))
                = Ok (CHAVE_PIX r)) records.
Proof.
  destruct (extract_emits U df) as [records [E Hall]].
  exists records. split; [exact E|].
  eapply Forall_impl; [|exact Hall].
  intros r [h [c [row [Hres [Hin Hr]]]]]. exists h, c, row.
  destruct Hr as [_ [_ [Hcod [_ [_ [_ [_ [Hk _]]]]]]]].
  rewrite isdigit_guard_redundant in Hk. auto.
Qed.

End Numbers.

(* ================================================================== *)
(** ** Resolution of the header labels *)

Section LabelResolution.

Variable U : unicode_data.

Lemma header_labels_step (v : cell) (row : Series) (k : nat) (l : str) :
  (exists s, v = CStr s /\ upper U (strip s) = l /\
             next_label (header_labels_from U k (v :: row)) l = Some k) \/
  ((forall s, v = CStr s -> upper U (strip s) <> l) /\
   next_label (header_labels_from U k (v :: row)) l
   = next_label (header_labels_from U (S k) row) l).
Proof.
  destruct v as [|f|n|s| |text];
    try (right; split; [intros s E; discriminate E | reflexivity]).
  simpl. destruct (str_eqb (upper U (strip s)) l) eqn:E.
  - left. exists s. apply str_eqb_eq in E. auto.
  - right. split; [|reflexivity].
    intros s' [= <-] Hs. apply str_eqb_eq in Hs. congruence.
Qed.

Lemma next_label_from_iff (row : Series) (k i : nat) (l : str) :
  next_label (header_labels_from U k row) l = Some i <->
  k <= i /\
  (exists s, nth_error row (i - k) = Some (CStr s) /\
             upper U (strip s) = l) /\
  (forall j s, j < i - k -> nth_error row j = Some (CStr s) ->
               upper U (strip s) <> l).
Proof.
  revert k. induction row as [|v row IH]; intros k.
  - simpl. split; [discriminate|].
    intros [_ [[s [E _]] _]]. destruct (i - k); discriminate E.
  - destruct (header_labels_step v row k l) as [[s [-> [Hs E]]] | [Hv E]];
      rewrite E.
    + split.
      * intros [= <-]. split; [lia|]. rewrite Nat.sub_diag.
        split; [exists s; auto|]. intros j s' Hj. lia.
      * intros [Hle [_ Hmin]]. f_equal.
        destruct (Nat.eq_dec k i) as [-> | Hne]; [reflexivity|].
        exfalso. apply (Hmin 0 s); [lia | reflexivity | exact Hs].
    + rewrite IH. split.
      * intros [Hle [[s [Hn Hs]] Hmin]]. split; [lia|].
        replace (i - k) with (S (i - S k)) by lia. split; [exists s; auto|].
        intros [|j] s' Hj Hn'; simpl in Hn'.
        -- injection Hn' as ->. apply Hv. reflexivity.
        -- apply (Hmin j s'); [lia | exact Hn'].
      * intros [Hle [[s [Hn Hs]] Hmin]].
        assert (k <> i).
        { intros ->. rewrite Nat.sub_diag in Hn. simpl in Hn.
          injection Hn as ->. exact (Hv s eq_refl Hs). }
        replace (i - k) with (S (i - S k)) in * by lia.
        split; [lia|]. split; [exists s; auto|].
        intros j s' Hj Hn'. apply (Hmin (S j) s'); [lia | exact Hn'].
Qed.

(** X5. A label resolves to the leftmost column whose header cell is a
    text that, stripped and upper-cased, equals the label: the match is
    exact but blind to case and to surrounding blanks, the first of
    several matching columns wins, and numbers and missing cells are
    never labels.  It does not resolve exactly when no header cell
    matches. *)
Theorem label_resolution (header_row : Series) (l : str) :
  (forall i : nat,
     next_label (header_labels U header_row) l = Some i <->
     (exists s, nth_error header_row i = Some (CStr s) /\
                upper U (strip s) = l) /\
     (forall j s, j < i -> nth_error header_row j = Some (CStr s) ->
                  upper U (strip s) <> l)) /\
  (next_label (header_labels U header_row) l = None <->
   forall s, In (CStr s) header_row -> upper U (strip s) <> l).
Proof.
  split.
  - intros i. unfold header_labels. rewrite next_label_from_iff.
    rewrite Nat.sub_0_r. intuition lia.
  - split; [|apply next_label_none].
    intros H s Hin Hs. apply In_nth_error in Hin. destruct Hin as [i Hi].
    assert (Hex : exists i s, nth_error header_row i = Some (CStr s) /\
                              upper U (strip s) = l) by eauto.
    clear i s Hi Hs.
    destruct Hex as [i Hex]. induction i as [i IHi] using lt_wf_ind.
    destruct Hex as [s [Hi Hs]].
    destruct (next_label (header_labels U header_row) l) eqn:E;
      [discriminate|].
    assert (Hmin : forall j s', j < i ->
              nth_error header_row j = Some (CStr s') ->
              upper U (strip s') <> l).
    { intros j s' Hj Hn Hs'. apply (IHi j Hj). eauto. }
    assert (next_label (header_labels U header_row) l = Some i).
    { unfold header_labels. apply next_label_from_iff.
      rewrite Nat.sub_0_r. split; [lia|]. split; [eauto | exact Hmin]. }
    congruence.
Qed.

End LabelResolution.

(* ================================================================== *)
(** ** The two passes of [find_name_column] *)

Lemma no_text_iff (data : list Series) (col : nat) :
  has_text (column data col) = false <-> ~ column_has_text data col.
Proof.
  rewrite <- has_text_column_iff.
  destruct (has_text (column data col)); split; congruence.
Qed.

(** The first column with a missing header that holds text. *)
Lemma first_blank_text (header_row : Series) (data : list Series)
    (cpf col : nat) :
  find (fun c => has_text (column data c)) (blank_header_cols header_row cpf)
  = Some col <->
  col < cpf /\ missing_header header_row col /\ column_has_text data col /\
  forall col', col' < col -> missing_header header_row col' ->
               ~ column_has_text data col'.
Proof.
  unfold blank_header_cols. rewrite find_filter_seq_some.
  rewrite blank_header_iff, has_text_column_iff. split.
  - intros [Hr [Hm [Ht Hmin]]]. split; [lia|]. split; [exact Hm|].
    split; [exact Ht|]. intros col' Hlt Hm'. apply no_text_iff.
    apply Hmin; [lia | exact Hlt | apply blank_header_iff; exact Hm'].
  - intros [Hr [Hm [Ht Hmin]]]. split; [lia|]. split; [exact Hm|].
    split; [exact Ht|]. intros y _ Hlt Hb. apply no_text_iff.
    apply Hmin; [exact Hlt | apply blank_header_iff; exact Hb].
Qed.

Lemma no_blank_text (header_row : Series) (data : list Series) (cpf : nat) :
  find (fun c => has_text (column data c)) (blank_header_cols header_row cpf)
  = None <->
  forall col, col < cpf -> missing_header header_row col ->
              ~ column_has_text data col.
Proof.
  unfold blank_header_cols. rewrite find_filter_seq_none. split.
  - intros H col Hlt Hm. apply no_text_iff.
    apply H; [lia | apply blank_header_iff; exact Hm].
  - intros H y Hy Hb. apply no_text_iff.
    apply H; [lia | apply blank_header_iff; exact Hb].
Qed.

Lemma seq_as_filter (a n : nat) : filter (fun _ => true) (seq a n) = seq a n.
Proof. apply filter_all. apply forallb_forall. reflexivity. Qed.

(** The first column that holds text. *)
Lemma first_text (data : list Series) (a n col : nat) :
  find (fun c => has_text (column data c)) (seq a n) = Some col <->
  a <= col < a + n /\ column_has_text data col /\
  forall col', a <= col' -> col' < col -> ~ column_has_text data col'.
Proof.
  rewrite <- (seq_as_filter a n), find_filter_seq_some.
  rewrite has_text_column_iff. split.
  - intros [Hr [_ [Ht Hmin]]]. split; [exact Hr|]. split; [exact Ht|].
    intros col' H1 H2. apply no_text_iff. apply Hmin; auto.
  - intros [Hr [Ht Hmin]]. split; [exact Hr|]. split; [reflexivity|].
    split; [exact Ht|]. intros y H1 H2 _. apply no_text_iff. auto.
Qed.

Lemma no_text (data : list Series) (a n : nat) :
  find (fun c => has_text (column data c)) (seq a n) = None <->
  forall col, a <= col < a + n -> ~ column_has_text data col.
Proof.
  rewrite <- (seq_as_filter a n), find_filter_seq_none. split.
  - intros H col Hr. apply no_text_iff. apply H; auto.
  - intros H y Hr _. apply no_text_iff. auto.
Qed.

(** X6. With the CPF column inside the frame, [find_name_column]
    raises nothing.  It returns a column exactly when that column is
    left of the CPF column, holds a non-blank text below the header,
    and is either the first such column among those with a missing
    header, or the first such column of all when no column with a
    missing header holds text.  It returns None exactly when no column
    left of the CPF column holds text below the header, in particular
    when the CPF column is column 0 or the header is the last row. *)
Theorem find_name_column_spec (df : DataFrame) (h cpf : nat)
    (header_row : Series) :
  iloc df h = Ok header_row ->
  cpf <= width df ->
  (forall col,
     find_name_column df h cpf header_row = Ok (Some col) <->
     col < cpf /\ column_has_text (data_rows df h) col /\
     ((missing_header header_row col /\
       forall col', col' < col -> missing_header header_row col' ->
                    ~ column_has_text (data_rows df h) col') \/
      ((forall col', col' < cpf -> missing_header header_row col' ->
                     ~ column_has_text (data_rows df h) col') /\
       forall col', col' < col -> ~ column_has_text (data_rows df h) col')))
  /\
  (find_name_column df h cpf header_row = Ok None <->
   forall col, col < cpf -> ~ column_has_text (data_rows df h) col).
Proof.
  intros Hi Hcpf. pose proof (iloc_length df h header_row Hi) as Hlen.
  rewrite find_name_column_eq.
  destruct (cpf <=? 0) eqn:Hz.
  { apply Nat.leb_le in Hz. split.
    - intros col. split; [discriminate | lia].
    - split; [intros _ col Hlt; lia | reflexivity]. }
  rewrite (pass1_find df h cpf header_row Hlen). cbn [bind].
  destruct (find _ (blank_header_cols header_row cpf)) as [c1|] eqn:E1.
  - pose proof (proj1 (first_blank_text _ _ _ _) E1) as [H1 [H2 [H3 H4]]].
    split.
    + intros col. split.
      * intros [= <-]. auto.
      * intros [Hlt [Ht [[Hm Hmin] | [Hnone _]]]].
        -- assert (E : find (fun c => has_text (column (data_rows df h) c))
                            (blank_header_cols header_row cpf) = Some col)
             by (apply first_blank_text; auto).
           congruence.
        -- exfalso. exact (Hnone c1 H1 H2 H3).
    + split; [discriminate|]. intros H. exfalso. exact (H c1 H1 H3).
  - pose proof (proj1 (no_blank_text _ _ _) E1) as Hnone.
    rewrite (pass2_find (width df) cpf (data_rows df h) Hcpf).
    destruct (find _ (seq 0 cpf)) as [c2|] eqn:E2.
    + pose proof (proj1 (first_text _ _ _ _) E2) as [H1 [H2 H3]].
      split.
      * intros col. split.
        -- intros [= <-]. split; [lia|]. split; [exact H2|]. right.
           split; [exact Hnone|]. intros col' Hlt. apply H3; lia.
        -- intros [Hlt [Ht Hcases]].
           assert (E : find (fun c => has_text (column (data_rows df h) c))
                            (seq 0 cpf) = Some col).
           { apply first_text. split; [lia|]. split; [exact Ht|].
             intros col' _ Hlt'.
             destruct Hcases as [[Hm Hmin] | [_ Hmin]]; [|auto].
             exfalso. exact (Hnone col Hlt Hm Ht). }
           congruence.
      * split; [discriminate|]. intros H. exfalso. apply (H c2); [lia|].
        exact H2.
    + pose proof (proj1 (no_text _ _ _) E2) as Hno. split.
      * intros col. split; [discriminate|].
        intros [Hlt [Ht _]]. exfalso. apply (Hno col); [lia | exact Ht].
      * split; [|reflexivity]. intros _ col Hlt. apply Hno. lia.
Qed.

Lemma first_text_column_app (w : nat) (data : list Series)
    (a b : list nat) :
  first_text_column w data (a ++ b) =
  (found <- first_text_column w data a ;;
   match found with
   | Some col => Ok (Some col)
   | None => first_text_column w data b
   end).
Proof.
  induction a as [|col a IH]; simpl; [reflexivity|].
  destruct (iloc_col w data col) as [column_series|e]; simpl; [|reflexivity].
  destruct (has_text column_series); [reflexivity | exact IH].
Qed.

(** X7. [find_name_column] raises only [IndexError], and only when the
    CPF index lies beyond the width of the frame and no column of the
    frame holds text below the header: the second pass then runs off the
    last column. *)
Theorem find_name_column_raises (df : DataFrame) (h cpf : nat)
    (header_row : Series) (e : exn) :
  iloc df h = Ok header_row ->
  (find_name_column df h cpf header_row = Raise e <->
   e = IndexError /\ width df < cpf /\
   forall col, col < width df -> ~ column_has_text (data_rows df h) col).
Proof.
  intros Hi. pose proof (iloc_length df h header_row Hi) as Hlen.
  destruct (Nat.le_gt_cases cpf (width df)) as [Hle | Hgt].
  { destruct (find_name_column_ok df h cpf header_row Hlen Hle) as [r ->].
    split; [discriminate | lia]. }
  rewrite find_name_column_eq.
  destruct (cpf <=? 0) eqn:Hz; [apply Nat.leb_le in Hz; lia|].
  rewrite (pass1_find df h cpf header_row Hlen). cbn [bind].
  destruct (find _ (blank_header_cols header_row cpf)) as [c1|] eqn:E1.
  { split; [discriminate|]. intros [_ [_ H]]. exfalso.
    apply first_blank_text in E1. destruct E1 as [_ [[v [Hv _]] [Ht _]]].
    apply (H c1); [|exact Ht]. rewrite <- Hlen.
    apply nth_error_Some. congruence. }
  replace cpf with (width df + (cpf - width df)) by lia.
  rewrite seq_app, first_text_column_app.
  rewrite (pass2_find (width df) (width df) (data_rows df h) (le_n _)).
  cbn [bind].
  destruct (find _ (seq 0 (width df))) as [c2|] eqn:E2.
  { split; [discriminate|]. intros [_ [_ H]]. exfalso.
    apply first_text in E2. destruct E2 as [Hr [Ht _]].
    apply (H c2); [lia | exact Ht]. }
  destruct (cpf - width df) as [|k] eqn:Hk; [lia|].
  cbn [seq first_text_column Nat.add]. unfold iloc_col.
  rewrite Nat.ltb_irrefl. cbn [bind]. split.
  - intros [= <-]. split; [reflexivity|]. split; [lia|].
    intros col Hlt. apply (proj1 (no_text _ _ _) E2). lia.
  - intros [-> _]. reflexivity.
Qed.

Lemma first_text_column_some (w : nat) (data : list Series)
    (cols : list nat) (col : nat) :
  first_text_column w data cols = Ok (Some col) ->
  In col cols /\ column_has_text data col.
Proof.
  induction cols as [|c cols IH]; simpl; [discriminate|].
  unfold iloc_col. destruct (c <? w); [|discriminate]. cbn [bind].
  fold (column data c). destruct (has_text (column data c)) eqn:E.
  - intros [= <-]. split; [left; reflexivity|].
    apply has_text_column_iff. exact E.
  - intros H. destruct (IH H) as [Hin Ht]. split; [right|]; assumption.
Qed.

Lemma find_name_column_some (df : DataFrame) (h cpf : nat)
    (header_row : Series) (col : nat) :
  find_name_column df h cpf header_row = Ok (Some col) ->
  col < cpf /\ column_has_text (data_rows df h) col.
Proof.
  unfold find_name_column. destruct (cpf <=? 0); [discriminate|].
  fold (data_rows df h).
  destruct (first_text_column _ _ (blank_header_cols header_row cpf))
    as [[c1|]|e] eqn:E1; cbn [bind]; [| |discriminate].
  - intros [= <-]. apply first_text_column_some in E1.
    destruct E1 as [Hin Ht]. apply blank_header_cols_in in Hin.
    split; [apply Hin | exact Ht].
  - intros E2. apply first_text_column_some in E2.
    destruct E2 as [Hin Ht]. apply in_seq in Hin. split; [lia | exact Ht].
Qed.

Lemma find_name_column_none (df : DataFrame) (h cpf : nat)
    (header_row : Series) :
  length header_row = width df -> cpf <= width df ->
  (forall col, col < cpf -> ~ column_has_text (data_rows df h) col) ->
  find_name_column df h cpf header_row = Ok None.
Proof.
  intros Hlen Hcpf Hno. rewrite find_name_column_eq.
  destruct (cpf <=? 0); [reflexivity|].
  rewrite (pass1_find df h cpf header_row Hlen). cbn [bind].
  assert (E1 : find (fun c => has_text (column (data_rows df h) c))
                    (blank_header_cols header_row cpf) = None).
  { apply no_blank_text. intros col Hlt _. auto. }
  rewrite E1, (pass2_find _ _ _ Hcpf).
  assert (E2 : find (fun c => has_text (column (data_rows df h) c))
                    (seq 0 cpf) = None).
  { apply no_text. intros col Hr. apply Hno. lia. }
  rewrite E2. reflexivity.
Qed.

(* ================================================================== *)
(** ** What a sheet yields *)

Section SheetRecords.

Variable U : unicode_data.

Lemma distinct_labels (header_row : Series) (i j : nat) (a b : str) :
  next_label (header_labels U header_row) a = Some i ->
  next_label (header_labels U header_row) b = Some j ->
  a <> b -> i <> j.
Proof.
  intros Ha Hb Hne ->.
  apply next_label_some in Ha. apply next_label_some in Hb.
  destruct Ha as [s [Hs <-]]. destruct Hb as [s' [Hs' <-]].
  congruence.
Qed.

(** X8. On a sheet that resolves, the header row is a row of the sheet;
    the name column is left of the CPF column and holds a non-blank
    text below the header; the CPF, BANCO and AGENCIA columns are three
    different columns of the frame; the account column is at most one
    past the last column; and the key-type and key-value columns, when
    resolved, are different columns of the frame. *)
Theorem resolved_columns (df : DataFrame) (h : nat) (c : Columns) :
  resolved U df h c ->
  h < length df /\
  name_idx c < cpf_idx c /\
  column_has_text (data_rows df h) (name_idx c) /\
  cpf_idx c < width df /\ banco_idx c < width df /\
  agencia_idx c < width df /\ conta_idx c <= width df /\
  cpf_idx c <> banco_idx c /\ cpf_idx c <> agencia_idx c /\
  banco_idx c <> agencia_idx c /\
  (forall i j, chave_tipo_idx c = Some i -> chave_val_idx c = Some j ->
               i < width df /\ j < width df /\ i <> j).
Proof.
  intros [Hh [hr [Hi [Hcpf [Hb [Ha [Hconta [Ht [Hv Hname]]]]]]]]].
  pose proof (iloc_length df h hr Hi) as Hlen.
  destruct (find_name_column_some df h _ hr _ Hname) as [Hlt Htext].
  pose proof (next_label_lt U hr _ _ Hcpf) as Hcw.
  pose proof (next_label_lt U hr _ _ Hb) as Hbw.
  pose proof (next_label_lt U hr _ _ Ha) as Haw.
  rewrite Hlen in Hcw, Hbw, Haw.
  split.
  { destruct (find_header_row_in U df h Hh) as [r Hr].
    apply nth_error_Some. congruence. }
  split; [exact Hlt|]. split; [exact Htext|].
  split; [exact Hcw|]. split; [exact Hbw|]. split; [exact Haw|].
  split.
  { rewrite Hconta.
    destruct (next_label (header_labels U hr) (lit "CONTA")) as [i|] eqn:E;
      [|lia].
    apply next_label_lt in E. lia. }
  split; [apply (distinct_labels hr _ _ _ _ Hcpf Hb); discriminate|].
  split; [apply (distinct_labels hr _ _ _ _ Hcpf Ha); discriminate|].
  split; [apply (distinct_labels hr _ _ _ _ Hb Ha); discriminate|].
  intros i j Hti Hvj. rewrite Ht in Hti. rewrite Hv in Hvj.
  pose proof (next_label_lt U hr _ _ Hti).
  pose proof (next_label_lt U hr _ _ Hvj).
  split; [lia|]. split; [lia|].
  apply (distinct_labels hr _ _ _ _ Hti Hvj). discriminate.
Qed.

(** X9. The header row is found through a cell that contains "CPF", but
    the CPF column must be a cell that is exactly "CPF": when the first
    row that mentions CPF has no such cell (a header "CPF/CNPJ", or a
    title or data row above the real header), the sheet yields
    nothing. *)
Theorem missing_cpf_label (df : DataFrame) (h : nat)
    (header_row : list cell) :
  find_header_row U df = Some h ->
  nth_error df h = Some header_row ->
  (forall s, In (CStr s) header_row -> upper U (strip s) <> lit "CPF") ->
  extract_rows_from_sheet U df = Ok [].
Proof.
  intros Hh Hrow Hmiss.
  assert (Hi : iloc df h = Ok (pad (width df) header_row))
    by (apply iloc_ok; eauto).
  unfold extract_rows_from_sheet. rewrite Hh, Hi. cbn [bind].
  rewrite (next_label_none U _ (lit "CPF")); [reflexivity|].
  intros s Hin. apply Hmiss. apply (in_pad_str (width df)). exact Hin.
Qed.

(** X10. When no column left of the CPF column holds a non-blank text
    below the header (the CPF column is the first column, the header is
    the last row, or the names are numbers or missing), no name column
    is found and the sheet yields nothing. *)
Theorem no_name_column (df : DataFrame) (h cpf : nat)
    (header_row : Series) :
  find_header_row U df = Some h ->
  iloc df h = Ok header_row ->
  next_label (header_labels U header_row) (lit "CPF") = Some cpf ->
  (forall col, col < cpf -> ~ column_has_text (data_rows df h) col) ->
  extract_rows_from_sheet U df = Ok [].
Proof.
  intros Hh Hi Hcpf Hno.
  pose proof (iloc_length df h header_row Hi) as Hlen.
  unfold extract_rows_from_sheet. rewrite Hh, Hi. cbn [bind]. rewrite Hcpf.
  destruct (next_label _ (lit "BANCO")); [|reflexivity].
  destruct (next_label _ (lit "AGENCIA")); [|reflexivity].
  rewrite (find_name_column_none df h cpf header_row Hlen); [reflexivity| |].
  - apply next_label_lt in Hcpf. lia.
  - exact Hno.
Qed.

End SheetRecords.

Section RowRecords.

Variable U : unicode_data.

Lemma not_truthy_all_empty (fields : list str) :
  existsb truthy fields = false -> Forall (fun f => f = []) fields.
Proof.
  induction fields as [|f fields IH]; simpl; [constructor|].
  intros H. apply orb_false_iff in H. destruct H as [Hf Hrest].
  constructor; [|exact (IH Hrest)].
  destruct f; [reflexivity | discriminate].
Qed.

Lemma snoc_not_same (A : Type) (l : list A) (x : A) : l ++ [x] <> l.
Proof.
  intros E. apply (f_equal (@length A)) in E.
  rewrite length_app in E. simpl in E. lia.
Qed.

(** The loop body leaves the list as it is only for a row it skips. *)
Lemma extract_row_unchanged (c : Columns) (records : list PixRecord)
    (row : Series) :
  extract_row U c records row = Ok records ->
  cleaned (row_get row (name_idx c)) = [] \/
  starts_with_total U (cleaned (row_get row (name_idx c))) \/
  Forall (fun f => f = []) (payment_fields c row).
Proof.
  intros E.
  destruct (is_empty (cleaned (row_get row (name_idx c)))) eqn:Hname;
    [left; apply is_empty_true; exact Hname|].
  destruct (startswith (upper U (cleaned (row_get row (name_idx c))))
                       (lit "TOTAL")) eqn:Htotal;
    [right; left; apply startswith_total; exact Htotal|].
  destruct (existsb truthy (payment_fields c row)) eqn:Hany;
    [|right; right; apply not_truthy_all_empty; exact Hany].
  exfalso. rewrite extract_row_eq, Hname, Htotal, Hany in E.
  cbn [orb negb] in E.
  destruct (numeric_or_string U _) as [cod|e]; [|discriminate].
  cbn [bind] in E.
  destruct (if str_isdigit U _ then _ else _) as [chave|e]; [|discriminate].
  cbn [bind] in E. injection E as E. exact (snoc_not_same _ _ _ E).
Qed.

(** A row with a name and some payment field appends one record. *)
Lemma extract_row_kept (c : Columns) (records : list PixRecord)
    (row : Series) :
  cleaned (row_get row (name_idx c)) <> [] ->
  ~ starts_with_total U (cleaned (row_get row (name_idx c))) ->
  (exists f, In f (payment_fields c row) /\ f <> []) ->
  exists r, extract_row U c records row = Ok (records ++ [r]) /\
            emitted_from U c row r.
Proof.
  intros Hname Htotal [f [Hin Hf]].
  destruct (extract_row_cases U c records row) as [E | H]; [|exact H].
  exfalso. apply extract_row_unchanged in E.
  destruct E as [E | [E | E]]; [contradiction | contradiction |].
  apply Hf. exact (proj1 (Forall_forall _ _) E f Hin).
Qed.

(** X11. The loop body skips a row, leaving the list of records as it
    is, exactly when the normalized name is empty, or starts with
    "TOTAL" once upper-cased, or the seven payment fields are all empty;
    for any other row it appends exactly one record, built from the
    cells of that row. *)
Theorem row_skipped_iff (c : Columns) (records : list PixRecord)
    (row : Series) :
  (extract_row U c records row = Ok records <->
   cleaned (row_get row (name_idx c)) = [] \/
   starts_with_total U (cleaned (row_get row (name_idx c))) \/
   Forall (fun f => f = []) (payment_fields c row)) /\
  (extract_row U c records row = Ok records \/
   exists r, extract_row U c records row = Ok (records ++ [r]) /\
             emitted_from U c row r).
Proof.
  split; [|apply extract_row_cases].
  split; [apply extract_row_unchanged|].
  intros [H | [H | H]].
  - apply extract_row_skips_name. left. exact H.
  - apply extract_row_skips_name. right. exact H.
  - apply extract_row_skips_blank. exact H.
Qed.

(** X12. On a sheet that resolves, a row below the header with a
    non-empty name that does not start with "TOTAL" and with at least
    one non-empty payment field yields exactly one record, built from
    its cells and placed between the records of the rows above it and
    those of the rows below it. *)
Theorem kept_row_yields_one (df : DataFrame) (h : nat) (c : Columns)
    (above : list Series) (row : Series) (below : list Series) :
  resolved U df h c ->
  data_rows df h = above ++ row :: below ->
  cleaned (row_get row (name_idx c)) <> [] ->
  ~ starts_with_total U (cleaned (row_get row (name_idx c))) ->
  (exists f, In f (payment_fields c row) /\ f <> []) ->
  exists first r last,
    rows_loop U c above [] = Ok first /\
    rows_loop U c below [] = Ok last /\
    emitted_from U c row r /\
    extract_rows_from_sheet U df = Ok (first ++ r :: last).
Proof.
  intros Hres Hdata Hname Htotal Hfield.
  rewrite (extract_resolved U df h c Hres), Hdata, rows_loop_app.
  destruct (rows_loop_emits U c above []) as [first [Hfirst _]].
  destruct (rows_loop_emits U c below []) as [last [Hlast _]].
  simpl in Hfirst, Hlast.
  destruct (extract_row_kept c first row Hname Htotal Hfield)
    as [r [Hr Hem]].
  exists first, r, last.
  split; [exact Hfirst|]. split; [exact Hlast|]. split; [exact Hem|].
  rewrite Hfirst. cbn [bind rows_loop]. rewrite Hr. cbn [bind].
  rewrite rows_loop_acc, Hlast. cbn [bind]. rewrite <- app_assoc.
  reflexivity.
Qed.

(** A kept row of a sheet that resolves has its record among those of
    the sheet. *)
Lemma kept_row_in_sheet (df : DataFrame) (h : nat) (c : Columns)
    (row : Series) :
  resolved U df h c ->
  In row (data_rows df h) ->
  cleaned (row_get row (name_idx c)) <> [] ->
  ~ starts_with_total U (cleaned (row_get row (name_idx c))) ->
  (exists f, In f (payment_fields c row) /\ f <> []) ->
  exists records r,
    extract_rows_from_sheet U df = Ok records /\
    In r records /\ emitted_from U c row r.
Proof.
  intros Hres Hin Hname Htotal Hfield.
  destruct (in_split _ _ Hin) as [above [below Hdata]].
  rewrite (extract_resolved U df h c Hres), Hdata, rows_loop_app.
  destruct (rows_loop_emits U c above []) as [first [Hfirst _]].
  destruct (rows_loop_emits U c below []) as [last [Hlast _]].
  simpl in Hfirst, Hlast.
  destruct (extract_row_kept c first row Hname Htotal Hfield)
    as [r [Hr Hem]].
  exists (first ++ r :: last), r.
  split; [|split; [apply in_elt | exact Hem]].
  rewrite Hfirst. cbn [bind rows_loop]. rewrite Hr. cbn [bind].
  rewrite rows_loop_acc, Hlast. cbn [bind]. rewrite <- app_assoc.
  reflexivity.
Qed.

(** C9. A cell read at a column index at or beyond the width of a row
    normalizes to the empty text.  The loop body raises on no row, of
    any width; on a row it keeps (a name that is not empty and does not
    start with "TOTAL", and some payment field that is not empty) it
    appends one record, whose BANCO is empty when the bank-name column
    (BANCO index + 1) lies past the end of the row and whose CONTA is
    empty when the account column lies past the end of the row.  On a
    sheet that resolves, extraction raises nothing and every kept row
    has its record in the result; when the bank-name column lies past
    the last column every record has an empty BANCO, and when the
    account column lies past the last column (it is then the default,
    AGENCIA index + 1) every record has an empty CONTA. *)
Theorem beyond_width_reads_empty :
  (forall (row : Series) (idx : nat),
     length row <= idx -> clean_value (row_get row idx) = Ok []) /\
  (forall (c : Columns) (records : list PixRecord) (row : Series),
     (exists records', extract_row U c records row = Ok records') /\
     (cleaned (row_get row (name_idx c)) <> [] ->
      ~ starts_with_total U (cleaned (row_get row (name_idx c))) ->
      (exists f, In f (payment_fields c row) /\ f <> []) ->
      exists r,
        extract_row U c records row = Ok (records ++ [r]) /\
        emitted_from U c row r /\
        (length row <= banco_idx c + 1 -> BANCO r = []) /\
        (length row <= conta_idx c -> CONTA r = []))) /\
  (forall (df : DataFrame) (h : nat) (c : Columns),
     resolved U df h c ->
     (exists records,
        extract_rows_from_sheet U df = Ok records /\
        (width df <= banco_idx c + 1 ->
         Forall (fun r => BANCO r = []) records) /\
        (width df <= conta_idx c ->
         conta_idx c = agencia_idx c + 1 /\
         Forall (fun r => CONTA r = []) records)) /\
     (forall row : Series,
        In row (data_rows df h) ->
        cleaned (row_get row (name_idx c)) <> [] ->
        ~ starts_with_total U (cleaned (row_get row (name_idx c))) ->
        (exists f, In f (payment_fields c row) /\ f <> []) ->
        exists records r,
          extract_rows_from_sheet U df = Ok records /\
          In r records /\ emitted_from U c row r)).
Proof.
  split; [|split].
  - intros row idx H. rewrite clean_value_ok, (row_get_beyond row idx H).
    reflexivity.
  - intros c records row. split.
    + destruct (extract_row_cases U c records row) as [E | [r [E _]]];
        rewrite E; eauto.
    + intros Hname Htotal Hfield.
      destruct (extract_row_kept c records row Hname Htotal Hfield)
        as [r [E Hr]].
      exists r. split; [exact E|]. split; [exact Hr|].
      destruct Hr as [_ [_ [_ [Hb [_ [Hc _]]]]]].
      split; intros Hw; [rewrite Hb | rewrite Hc];
        apply row_get_beyond; exact Hw.
  - intros df h c Hres.
    split; [|intros row; exact (kept_row_in_sheet df h c row Hres)].
    destruct (extract_emits U df) as [records [E Hall]].
    exists records. split; [exact E|]. split; [|split].
    + intros Hw. eapply Forall_impl; [|exact Hall].
      intros r [h' [c' [row [Hres' [Hin Hr]]]]].
      destruct (resolved_unique U df h h' c c' Hres Hres') as [<- <-].
      destruct Hr as [_ [_ [_ [Hb _]]]]. rewrite Hb.
      apply row_get_beyond. rewrite (skipn_rows_in df _ row Hin). exact Hw.
    + destruct Hres as [_ [hr [Hi [_ [_ [_ [Hconta _]]]]]]].
      destruct (next_label (header_labels U hr) (lit "CONTA")) as [i|]
        eqn:Hl; [|exact Hconta].
      apply next_label_lt in Hl. rewrite (iloc_length df h hr Hi) in Hl. lia.
    + eapply Forall_impl; [|exact Hall].
      intros r [h' [c' [row [Hres' [Hin Hr]]]]].
      destruct (resolved_unique U df h h' c c' Hres Hres') as [<- <-].
      destruct Hr as [_ [_ [_ [_ [_ [Hc _]]]]]]. rewrite Hc.
      apply row_get_beyond. rewrite (skipn_rows_in df _ row Hin). exact H.
Qed.

Lemma row_records_ok (c : Columns) (row : Series) :
  extract_row U c [] row = Ok (row_records U c row) /\
  length (row_records U c row) <= 1.
Proof.
  unfold row_records.
  destruct (extract_row_cases U c [] row) as [E | [r [E _]]]; rewrite E;
    simpl; split; (reflexivity || lia).
Qed.

Lemma rows_loop_flat_map (c : Columns) (data : list Series) :
  rows_loop U c data [] = Ok (flat_map (row_records U c) data).
Proof.
  induction data as [|row data IH]; [reflexivity|].
  cbn [rows_loop flat_map].
  rewrite (proj1 (row_records_ok c row)). cbn [bind].
  rewrite rows_loop_acc, IH. reflexivity.
Qed.

Lemma flat_map_short (A B : Type) (f : A -> list B) (l : list A) :
  (forall x, length (f x) <= 1) -> length (flat_map f l) <= length l.
Proof.
  intros H. induction l as [|x l IH]; simpl; [lia|].
  rewrite length_app. specialize (H x). lia.
Qed.

(** X13. On a sheet that resolves, the loop carries nothing from one
    row to the next: the result is the concatenation, in row order, of
    what each row below the header gives on its own, none or one
    record.  So a sheet yields at most as many records as it has rows
    below its header. *)
Theorem rows_contribute_independently (df : DataFrame) (h : nat)
    (c : Columns) :
  resolved U df h c ->
  extract_rows_from_sheet U df
  = Ok (flat_map (row_records U c) (data_rows df h)) /\
  (forall row, extract_row U c [] row = Ok (row_records U c row) /\
               length (row_records U c row) <= 1) /\
  length (flat_map (row_records U c) (data_rows df h))
  <= length df - (h + 1).
Proof.
  intros Hres. split; [|split].
  - rewrite (extract_resolved U df h c Hres). apply rows_loop_flat_map.
  - apply row_records_ok.
  - eapply Nat.le_trans.
    + apply flat_map_short. intros row. apply row_records_ok.
    + unfold data_rows, rows. rewrite length_skipn, length_map. lia.
Qed.

End RowRecords.

(* ================================================================== *)
(** ** What the result does not depend on *)

Lemma agree_pad (w : nat) (r : list cell) : agree (pad w r) r.
Proof.
  intros i. unfold pad.
  destruct (Nat.lt_ge_cases i (length r)) as [H | H].
  - apply app_nth1. exact H.
  - rewrite app_nth2 by exact H. rewrite (nth_overflow r) by exact H.
    destruct (Nat.lt_ge_cases (i - length r) (w - length r)) as [H' | H'].
    + apply nth_repeat_lt. exact H'.
    + apply nth_overflow. rewrite repeat_length. exact H'.
Qed.

Lemma agree_sym (r r' : list cell) : agree r r' -> agree r' r.
Proof. intros H i. symmetry. apply H. Qed.

Lemma agree_trans (a b c : list cell) : agree a b -> agree b c -> agree a c.
Proof. intros H1 H2 i. rewrite H1. apply H2. Qed.

Lemma agree_append (r : list cell) (k : nat) : agree r (r ++ repeat nan k).
Proof.
  intros i. destruct (Nat.lt_ge_cases i (length r)) as [H | H].
  - symmetry. apply app_nth1. exact H.
  - rewrite app_nth2 by exact H. rewrite (nth_overflow r) by exact H.
    destruct (Nat.lt_ge_cases (i - length r) k) as [H' | H'].
    + symmetry. apply nth_repeat_lt. exact H'.
    + symmetry. apply nth_overflow. rewrite repeat_length. exact H'.
Qed.

Lemma nth_error_str (r : list cell) (i : nat) (s : str) :
  nth_error r i = Some (CStr s) <-> nth i r nan = CStr s.
Proof.
  destruct (Nat.lt_ge_cases i (length r)) as [H | H].
  - rewrite (nth_error_nth' r nan H). split; congruence.
  - rewrite (nth_overflow r) by exact H.
    assert (nth_error r i = None) as -> by (apply nth_error_None; exact H).
    split; discriminate.
Qed.

Lemma agree_nth_error_str (r r' : list cell) (i : nat) (s : str) :
  agree r r' ->
  nth_error r i = Some (CStr s) -> nth_error r' i = Some (CStr s).
Proof.
  intros H E. apply nth_error_str. rewrite <- H. apply nth_error_str. exact E.
Qed.

Lemma agree_cleaned (r r' : list cell) (idx : nat) :
  agree r r' -> cleaned (row_get r idx) = cleaned (row_get r' idx).
Proof.
  assert (Hn : forall l : list cell,
             cleaned (row_get l idx) = cleaned (nth idx l nan)).
  { intros l. unfold row_get.
    destruct (Nat.lt_ge_cases idx (length l)) as [H | H].
    - rewrite (nth_error_nth' l nan H). reflexivity.
    - rewrite (nth_overflow l) by exact H.
      assert (nth_error l idx = None) as -> by (apply nth_error_None; exact H).
      reflexivity. }
  intros H. rewrite !Hn, (H idx). reflexivity.
Qed.

Lemma agree_column (data data' : list Series) (col : nat) :
  Forall2 agree data data' -> column data col = column data' col.
Proof.
  induction 1 as [|r r' data data' Hr _ IH]; [reflexivity|].
  simpl. rewrite (Hr col). f_equal. exact IH.
Qed.

Lemma agree_blank_header (hr hr' : Series) (col : nat) :
  agree hr hr' -> col < length hr -> col < length hr' ->
  blank_header hr col = blank_header hr' col.
Proof.
  intros H H1 H2. unfold blank_header.
  rewrite (nth_error_nth' hr nan H1), (nth_error_nth' hr' nan H2), (H col).
  reflexivity.
Qed.

Lemma agree_blank_header_cols (hr hr' : Series) (cpf : nat) :
  agree hr hr' -> cpf <= length hr -> cpf <= length hr' ->
  blank_header_cols hr cpf = blank_header_cols hr' cpf.
Proof.
  intros H H1 H2. unfold blank_header_cols. apply filter_ext_in.
  intros col Hin. apply in_seq in Hin.
  apply agree_blank_header; [exact H | lia | lia].
Qed.

Lemma Forall2_skipn (A B : Type) (R : A -> B -> Prop) (k : nat)
    (l : list A) (l' : list B) :
  Forall2 R l l' -> Forall2 R (skipn k l) (skipn k l').
Proof.
  intros H. revert k. induction H as [|x y l l' Hxy Ht IH]; intros k.
  - rewrite !skipn_nil. constructor.
  - destruct k; simpl; [constructor; assumption | apply IH].
Qed.

Lemma Forall2_map_pad (w w' : nat) (l l' : list (list cell)) :
  Forall2 agree l l' -> Forall2 agree (map (pad w) l) (map (pad w') l').
Proof.
  induction 1 as [|r r' l l' Hr _ IH]; simpl; constructor; [|exact IH].
  eapply agree_trans; [apply agree_pad|].
  eapply agree_trans; [exact Hr|]. apply agree_sym, agree_pad.
Qed.

Lemma data_rows_raw (df : DataFrame) (h : nat) :
  data_rows df h = map (pad (width df)) (skipn (h + 1) df).
Proof. unfold data_rows, rows. apply skipn_map. Qed.

Section Invariance.

Variable U : unicode_data.

Lemma existsb_cpf_nth (r : list cell) :
  existsb (cell_has_cpf U) r = true <->
  exists i, cell_has_cpf U (nth i r nan) = true.
Proof.
  rewrite existsb_exists. split.
  - intros [v [Hin Hv]]. apply (In_nth _ _ nan) in Hin.
    destruct Hin as [i [_ <-]]. eauto.
  - intros [i Hi]. exists (nth i r nan). split; [|exact Hi].
    destruct (Nat.lt_ge_cases i (length r)) as [H | H].
    + apply nth_In. exact H.
    + rewrite nth_overflow in Hi by exact H. discriminate.
Qed.

Lemma agree_has_cpf (r r' : list cell) :
  agree r r' ->
  existsb (cell_has_cpf U) r = existsb (cell_has_cpf U) r'.
Proof.
  intros H.
  assert (Hiff : existsb (cell_has_cpf U) r = true <->
                 existsb (cell_has_cpf U) r' = true).
  { rewrite !existsb_cpf_nth.
    split; intros [i Hi]; exists i; [rewrite <- H | rewrite H]; exact Hi. }
  destruct (existsb (cell_has_cpf U) r), (existsb (cell_has_cpf U) r');
    intuition congruence.
Qed.

Lemma agree_find_header_loop (rs rs' : list Series) (k : nat) :
  Forall2 agree rs rs' ->
  find_header_loop U (combine (seq k (length rs)) rs)
  = find_header_loop U (combine (seq k (length rs')) rs').
Proof.
  intros H. revert k. induction H as [|r r' rs rs' Hr _ IH]; intros k;
    [reflexivity|].
  simpl. rewrite (agree_has_cpf r r' Hr).
  destruct (existsb (cell_has_cpf U) r'); [reflexivity | apply IH].
Qed.

Lemma agree_find_header_row (df df' : DataFrame) :
  Forall2 agree df df' -> find_header_row U df = find_header_row U df'.
Proof.
  intros H. unfold find_header_row. rewrite !iterrows_rows.
  apply agree_find_header_loop. unfold rows. apply Forall2_map_pad. exact H.
Qed.

Lemma agree_next_label (hr hr' : Series) (l : str) :
  agree hr hr' ->
  next_label (header_labels U hr) l = next_label (header_labels U hr') l.
Proof.
  intros H.
  assert (Hone : forall a b : Series, agree a b -> forall i,
            next_label (header_labels U a) l = Some i ->
            next_label (header_labels U b) l = Some i).
  { intros a b Hab i E. unfold header_labels in *.
    apply next_label_from_iff in E. apply next_label_from_iff.
    rewrite Nat.sub_0_r in *. destruct E as [_ [[s [Hs Hl]] Hmin]].
    split; [lia|]. split.
    - exists s. split; [|exact Hl].
      exact (agree_nth_error_str a b i s Hab Hs).
    - intros j s' Hj Hn. apply (Hmin j s' Hj).
      exact (agree_nth_error_str b a j s' (agree_sym a b Hab) Hn). }
  destruct (next_label (header_labels U hr) l) as [i|] eqn:E.
  - symmetry. exact (Hone hr hr' H i E).
  - destruct (next_label (header_labels U hr') l) as [i|] eqn:E';
      [|reflexivity].
    rewrite (Hone hr' hr (agree_sym hr hr' H) i E') in E. discriminate.
Qed.

Lemma agree_extract_row (c : Columns) (records : list PixRecord)
    (r r' : Series) :
  agree r r' -> extract_row U c records r = extract_row U c records r'.
Proof.
  intros H. rewrite !extract_row_eq. unfold payment_fields, optional_text.
  rewrite !(agree_cleaned r r' _ H).
  destruct (chave_tipo_idx c), (chave_val_idx c);
    rewrite ?(agree_cleaned r r' _ H); reflexivity.
Qed.

Lemma agree_rows_loop (c : Columns) (data data' : list Series)
    (records : list PixRecord) :
  Forall2 agree data data' ->
  rows_loop U c data records = rows_loop U c data' records.
Proof.
  intros H. revert records.
  induction H as [|r r' data data' Hr _ IH]; intros records; [reflexivity|].
  simpl. rewrite (agree_extract_row c records r r' Hr).
  destruct (extract_row U c records r'); simpl; [apply IH | reflexivity].
Qed.

(** [find_name_column] as two searches, when it cannot raise. *)
Lemma find_name_column_find (df : DataFrame) (h cpf : nat)
    (header_row : Series) :
  length header_row = width df -> cpf <= width df ->
  find_name_column df h cpf header_row
  = Ok (if cpf <=? 0 then None
        else match find (fun c => has_text (column (data_rows df h) c))
                        (blank_header_cols header_row cpf) with
             | Some col => Some col
             | None => find (fun c => has_text (column (data_rows df h) c))
                            (seq 0 cpf)
             end).
Proof.
  intros Hlen Hcpf. rewrite find_name_column_eq.
  destruct (cpf <=? 0); [reflexivity|].
  rewrite (pass1_find df h cpf header_row Hlen). cbn [bind].
  destruct (find _ (blank_header_cols header_row cpf)); [reflexivity|].
  apply pass2_find. exact Hcpf.
Qed.

(** Two sheets whose header rows agree and whose rows below the header
    agree give the same result. *)
Lemma extract_congruence (df df' : DataFrame) (h h' : nat)
    (raw raw' : list cell) :
  find_header_row U df = Some h -> find_header_row U df' = Some h' ->
  nth_error df h = Some raw -> nth_error df' h' = Some raw' ->
  agree raw raw' ->
  Forall2 agree (skipn (h + 1) df) (skipn (h' + 1) df') ->
  extract_rows_from_sheet U df = extract_rows_from_sheet U df'.
Proof.
  intros Hh Hh' Hraw Hraw' Hagree Hdata.
  assert (Hi : iloc df h = Ok (pad (width df) raw))
    by (apply iloc_ok; eauto).
  assert (Hi' : iloc df' h' = Ok (pad (width df') raw'))
    by (apply iloc_ok; eauto).
  pose proof (iloc_length _ _ _ Hi) as Hlen.
  pose proof (iloc_length _ _ _ Hi') as Hlen'.
  assert (Hhr : agree (pad (width df) raw) (pad (width df') raw')).
  { eapply agree_trans; [apply agree_pad|].
    eapply agree_trans; [exact Hagree|]. apply agree_sym, agree_pad. }
  assert (Hrows : Forall2 agree (data_rows df h) (data_rows df' h')).
  { rewrite !data_rows_raw. apply Forall2_map_pad. exact Hdata. }
  unfold extract_rows_from_sheet. rewrite Hh, Hh', Hi, Hi'. cbn [bind].
  rewrite !(agree_next_label _ _ _ Hhr).
  destruct (next_label _ (lit "CPF")) as [cpf|] eqn:Hcpf; [|reflexivity].
  destruct (next_label _ (lit "BANCO")) as [banco|]; [|reflexivity].
  destruct (next_label _ (lit "AGENCIA")) as [agencia|]; [|reflexivity].
  pose proof (next_label_lt U _ _ _ Hcpf) as Hlt'.
  rewrite <- (agree_next_label _ _ _ Hhr) in Hcpf.
  pose proof (next_label_lt U _ _ _ Hcpf) as Hlt.
  rewrite (find_name_column_find df h cpf _ Hlen) by lia.
  rewrite (find_name_column_find df' h' cpf _ Hlen') by lia.
  rewrite (agree_blank_header_cols _ _ cpf Hhr) by lia.
  assert (Hf : forall l,
            find (fun c => has_text (column (data_rows df h) c)) l
            = find (fun c => has_text (column (data_rows df' h') c)) l).
  { intros l. induction l as [|c l IH]; [reflexivity|]. simpl.
    rewrite (agree_column _ _ c Hrows), IH. reflexivity. }
  rewrite !Hf. cbn [bind].
  destruct (if cpf <=? 0 then None else _) as [name|]; [|reflexivity].
  apply agree_rows_loop. exact Hrows.
Qed.

End Invariance.

Section Ignored.

Variable U : unicode_data.

Lemma find_header_row_none_inv (df : DataFrame) :
  find_header_row U df = None ->
  forall row, In row df -> ~ mentions_cpf U row.
Proof.
  unfold find_header_row. rewrite iterrows_rows. intros H row Hin Hm.
  apply (find_header_loop_none U _ _ H (pad (width df) row)).
  - unfold rows. apply in_map. exact Hin.
  - apply mentions_cpf_pad. exact Hm.
Qed.

Lemma Forall2_agree_refl (l : list (list cell)) : Forall2 agree l l.
Proof. induction l; constructor; [intros i; reflexivity | assumption]. Qed.

Lemma Forall2_nth_error_l (A B : Type) (R : A -> B -> Prop)
    (l : list A) (l' : list B) (i : nat) (x : A) :
  Forall2 R l l' -> nth_error l i = Some x ->
  exists y, nth_error l' i = Some y /\ R x y.
Proof.
  intros H. revert i. induction H as [|a b l l' Hab _ IH]; intros i.
  - destruct i; discriminate.
  - destruct i as [|i]; simpl.
    + intros [= <-]. eauto.
    + apply IH.
Qed.

(** X14. Rows above the header that mention "CPF" in no text cell
    (titles, blank rows, decoration) have no effect on the result,
    however wide they are. *)
Theorem rows_above_header_ignored (above : list (list cell))
    (df : DataFrame) :
  (forall row, In row above -> ~ mentions_cpf U row) ->
  extract_rows_from_sheet U (above ++ df) = extract_rows_from_sheet U df.
Proof.
  intros Habove.
  destruct (find_header_row U df) as [h|] eqn:Hh.
  - pose proof (proj1 (find_header_row_first U df h) Hh)
      as [[raw [Hraw Hm]] Hmin].
    assert (Hh' : find_header_row U (above ++ df) = Some (length above + h)).
    { apply find_header_row_first. split.
      - exists raw. split; [|exact Hm].
        rewrite nth_error_app2 by lia.
        replace (length above + h - length above) with h by lia. exact Hraw.
      - intros j row Hj Hn.
        destruct (Nat.lt_ge_cases j (length above)) as [Hlt | Hge].
        + rewrite nth_error_app1 in Hn by exact Hlt.
          apply Habove. apply (nth_error_In _ j). exact Hn.
        + rewrite nth_error_app2 in Hn by exact Hge.
          apply (Hmin (j - length above)); [lia | exact Hn]. }
    apply (extract_congruence U (above ++ df) df (length above + h) h raw raw
             Hh' Hh).
    + rewrite nth_error_app2 by lia.
      replace (length above + h - length above) with h by lia. exact Hraw.
    + exact Hraw.
    + intros i. reflexivity.
    + rewrite skipn_app.
      rewrite (skipn_all2 above) by lia.
      replace (length above + h + 1 - length above) with (h + 1) by lia.
      apply Forall2_agree_refl.
  - assert (Hnone : find_header_row U (above ++ df) = None).
    { apply find_header_row_none. intros row Hin.
      apply in_app_or in Hin. destruct Hin as [Hin | Hin].
      - apply Habove. exact Hin.
      - apply (find_header_row_none_inv df Hh). exact Hin. }
    unfold extract_rows_from_sheet. rewrite Hh, Hnone. reflexivity.
Qed.

(** X15. Missing cells at the end of rows have no effect on the result:
    two sheets whose rows agree once extended to the right with NaN
    yield the same records.  A sheet can be given ragged or padded, and
    empty columns on its right change nothing. *)
Theorem trailing_missing_cells_ignored (df df' : DataFrame) :
  Forall2 agree df df' ->
  extract_rows_from_sheet U df = extract_rows_from_sheet U df'.
Proof.
  intros H. pose proof (agree_find_header_row U df df' H) as Hfind.
  destruct (find_header_row U df) as [h|] eqn:Hh.
  - destruct (find_header_row_in U df h Hh) as [raw Hraw].
    destruct (Forall2_nth_error_l _ _ _ _ _ h raw H Hraw)
      as [raw' [Hraw' Hagree]].
    apply (extract_congruence U df df' h h raw raw' Hh (eq_sym Hfind)
             Hraw Hraw' Hagree).
    apply Forall2_skipn. exact H.
  - unfold extract_rows_from_sheet. rewrite Hh, <- Hfind. reflexivity.
Qed.

End Ignored.

(* ================================================================== *)
(** ** The order of the files *)

Lemma str_ltb_irrefl (a : str) : str_ltb a a = false.
Proof.
  induction a as [|x a IH]; [reflexivity|].
  simpl. rewrite N.ltb_irrefl, N.eqb_refl, IH. reflexivity.
Qed.

Lemma str_ltb_cons (x y : N) (a b : str) :
  str_ltb (x :: a) (y :: b) = true <->
  (x < y)%N \/ (x = y /\ str_ltb a b = true).
Proof.
  simpl. rewrite orb_true_iff, andb_true_iff, N.ltb_lt, N.eqb_eq. tauto.
Qed.

Lemma str_ltb_trans (a b c : str) :
  str_ltb a b = true -> str_ltb b c = true -> str_ltb a c = true.
Proof.
  revert b c. induction a as [|x a IH]; intros [|y b] [|z c];
    try discriminate; try reflexivity.
  rewrite !str_ltb_cons. intros [H1 | [-> H1]] [H2 | [-> H2]].
  - left. lia.
  - left. exact H1.
  - left. exact H2.
  - right. split; [reflexivity | exact (IH b c H1 H2)].
Qed.

Lemma str_ltb_total (a b : str) :
  str_ltb a b = false -> str_ltb b a = false -> a = b.
Proof.
  revert b. induction a as [|x a IH]; intros [|y b]; simpl;
    try discriminate; try reflexivity.
  intros H1 H2.
  apply orb_false_iff in H1. destruct H1 as [H1 H1'].
  apply orb_false_iff in H2. destruct H2 as [H2 H2'].
  apply N.ltb_ge in H1. apply N.ltb_ge in H2.
  assert (x = y) as -> by lia.
  rewrite N.eqb_refl in H1', H2'. simpl in H1', H2'.
  f_equal. exact (IH b H1' H2').
Qed.

Lemma name_le_trans (f g k : file) :
  name_le f g -> name_le g k -> name_le f k.
Proof.
  unfold name_le. intros H1 H2.
  destruct (str_ltb (fst k) (fst f)) eqn:E; [|reflexivity].
  destruct (str_ltb (fst f) (fst g)) eqn:E'.
  - rewrite (str_ltb_trans _ _ _ E E') in H2. discriminate.
  - rewrite <- (str_ltb_total _ _ E' H1) in H2. congruence.
Qed.








Lemma insert_file_comm (f g : file) (l : list file) :
  fst f <> fst g ->
  insert_file f (insert_file g l) = insert_file g (insert_file f l).
Proof.
  intros Hne.
  assert (Hfg : str_ltb (fst f) (fst g) = negb (str_ltb (fst g) (fst f))).
  { destruct (str_ltb (fst f) (fst g)) eqn:E1,
             (str_ltb (fst g) (fst f)) eqn:E2; try reflexivity.
    - pose proof (str_ltb_trans _ _ _ E1 E2) as H.
      rewrite str_ltb_irrefl in H. discriminate.
    - exfalso. apply Hne. apply str_ltb_total; assumption. }
  induction l as [|k l IH].
  - simpl. rewrite Hfg. destruct (str_ltb (fst g) (fst f)); reflexivity.
  - cbn [insert_file].
    destruct (str_ltb (fst k) (fst g)) eqn:Eg,
             (str_ltb (fst k) (fst f)) eqn:Ef;
      cbn [insert_file]; rewrite ?Eg, ?Ef.
    + rewrite IH. reflexivity.
    + destruct (str_ltb (fst f) (fst g)) eqn:E.
      * cbn [insert_file]. rewrite ?Eg. reflexivity.
      * exfalso.
        assert (H : name_le g f) by exact E.
        assert (H0 : name_le f k) by exact Ef.
        pose proof (name_le_trans g f k H H0) as H1.
        unfold name_le in H1. congruence.
    + destruct (str_ltb (fst g) (fst f)) eqn:E.
      * cbn [insert_file]. rewrite ?Ef. reflexivity.
      * exfalso.
        assert (H : name_le f g) by exact E.
        assert (H0 : name_le g k) by exact Eg.
        pose proof (name_le_trans f g k H H0) as H1.
        unfold name_le in H1. congruence.
    + rewrite Hfg. destruct (str_ltb (fst g) (fst f)); cbn [negb insert_file];
        rewrite ?Eg, ?Ef; reflexivity.
Qed.

(** Files with distinct names come out of [sorted] in one order,
    whatever the order they went in. *)
Lemma sorted_perm_invariant (l l' : list file) :
  Permutation l l' -> NoDup (map fst l) -> sorted l = sorted l'.
Proof.
  induction 1 as [|f l l' Hp IH|f g l|l l' l'' Hp1 IH1 Hp2 IH2];
    intros Hnd; simpl in *.
  - reflexivity.
  - inversion Hnd; subst. rewrite IH by assumption. reflexivity.
  - inversion Hnd as [|? ? Hnin _]; subst.
    apply insert_file_comm. intros E. apply Hnin. left. symmetry. exact E.
  - rewrite IH1 by exact Hnd. apply IH2.
    eapply Permutation_NoDup; [|exact Hnd].
    apply Permutation_map. exact Hp1.
Qed.

(* ================================================================== *)
(** ** [process_workbook] and [main] *)

Section BatchRecords.

Variable U : unicode_data.

Lemma extract_ok (df : DataFrame) :
  extract_rows_from_sheet U df = Ok (sheet_records U df).
Proof.
  unfold sheet_records.
  destruct (extract_emits U df) as [records [E _]]. rewrite E. reflexivity.
Qed.

Lemma sheet_records_valid (df : DataFrame) :
  Forall (valid_record U) (sheet_records U df).
Proof.
  unfold sheet_records.
  destruct (extract_emits U df) as [records [E Hall]]. rewrite E.
  eapply Forall_impl; [|exact Hall].
  intros r [h [c [row [_ [_ Hr]]]]]. exact (emitted_valid U c row r Hr).
Qed.





Lemma sheets_loop_valid (sheets : list (result DataFrame))
    (acc records : list PixRecord) :
  sheets_loop U sheets acc = Ok records ->
  Forall (valid_record U) acc -> Forall (valid_record U) records.
Proof.
  revert acc. induction sheets as [|[df|e] sheets IH]; intros acc; simpl.
  - intros [= <-] H. exact H.
  - rewrite extract_ok. cbn [bind]. intros E H. apply (IH _ E).
    apply Forall_app. split; [exact H | apply sheet_records_valid].
  - discriminate.
Qed.

Lemma process_workbook_eq (f : file) (out : list str) :
  process_workbook U f out
  = records <- file_records U f ;; Ok (records, out ++ file_lines f).
Proof.
  unfold process_workbook, file_records, file_lines.
  destruct (snd f) as [exc|sheets]; [reflexivity|].
  destruct (sheets_loop U sheets []); cbn [bind]; rewrite ?app_nil_r;
    reflexivity.
Qed.

Lemma files_loop_eq (files : list file) (all_records : list PixRecord)
    (out : list str) :
  files_loop U files all_records out
  = records <- batch_records U files ;;
    Ok (all_records ++ records, out ++ flat_map file_lines files).
Proof.
  revert all_records out.
  induction files as [|f files IH]; intros all_records out; simpl.
  - rewrite !app_nil_r. reflexivity.
  - rewrite process_workbook_eq.
    destruct (file_records U f) as [records|e]; cbn [bind fst snd];
      [|reflexivity].
    rewrite IH. destruct (batch_records U files) as [more|e]; cbn [bind];
      [|reflexivity].
    rewrite !app_assoc. reflexivity.
Qed.

Lemma main_eq (listing : list file) (out : list str) :
  main U listing out
  = records <- batch_records U (main_files listing) ;;
    Ok (records, out ++ flat_map file_lines (main_files listing)).
Proof. unfold main. rewrite files_loop_eq. reflexivity. Qed.




Lemma batch_records_valid_all (files : list file)
    (records : list PixRecord) :
  batch_records U files = Ok records -> Forall (valid_record U) records.
Proof.
  revert records. induction files as [|f files IH]; intros records; simpl.
  - intros [= <-]. constructor.
  - destruct (file_records U f) as [first|e] eqn:Ef; cbn [bind];
      [|discriminate].
    destruct (batch_records U files) as [more|e]; cbn [bind];
      [|discriminate].
    intros [= <-]. apply Forall_app. split; [|apply IH; reflexivity].
    unfold file_records in Ef. destruct (snd f) as [exc|sheets].
    + injection Ef as <-. constructor.
    + apply (sheets_loop_valid sheets [] first Ef). constructor.
Qed.




Lemma flat_map_filter (A B : Type) (g : A -> list B) (p : A -> bool)
    (l : list A) :
  (forall x, p x = false -> g x = []) ->
  flat_map g (filter p l) = flat_map g l.
Proof.
  intros H. induction l as [|x l IH]; simpl; [reflexivity|].
  destruct (p x) eqn:E; simpl; rewrite IH; [reflexivity|].
  rewrite (H x E). reflexivity.
Qed.


(** X19. [main] never opens a file named "pix_output.xlsx": with or
    without such a file in the directory, readable or not, the records
    and the printed lines are the same. *)
Theorem output_file_never_read (before after : list file) (wb : workbook)
    (out : list str) :
  main U (before ++ (OUTPUT_XLSX, wb) :: after) out
  = main U (before ++ after) out.
Proof.
  unfold main, main_files. rewrite !filter_app. reflexivity.
Qed.

Lemma filter_perm (A : Type) (p : A -> bool) (l l' : list A) :
  Permutation l l' -> Permutation (filter p l) (filter p l').
Proof.
  induction 1 as [|x l l' _ IH|x y l|l l' l'' _ IH1 _ IH2]; simpl.
  - constructor.
  - destruct (p x); [constructor|]; exact IH.
  - destruct (p x), (p y); try reflexivity. apply perm_swap.
  - exact (perm_trans IH1 IH2).
Qed.

Lemma filter_names_nodup (p : file -> bool) (l : list file) :
  NoDup (map fst l) -> NoDup (map fst (filter p l)).
Proof.
  induction l as [|f l IH]; simpl; [auto|].
  intros H. inversion H as [|? ? Hnin Hnd]; subst.
  destruct (p f); simpl; [|exact (IH Hnd)].
  constructor; [|exact (IH Hnd)].
  intros Hin. apply Hnin. apply in_map_iff in Hin.
  destruct Hin as [g [Hg Hin]]. apply filter_In in Hin.
  apply in_map_iff. exists g. tauto.
Qed.

(** X20. The result does not depend on the order in which the directory
    is listed: for files with distinct names, two listings of the same
    files give the same records and the same printed lines. *)
Theorem listing_order_irrelevant (listing listing' : list file)
    (out : list str) :
  Permutation listing listing' ->
  NoDup (map fst listing) ->
  main U listing out = main U listing' out.
Proof.
  intros Hp Hnd. unfold main, main_files.
  rewrite (sorted_perm_invariant _ _ (filter_perm _ _ _ _ Hp)
             (filter_names_nodup _ _ Hnd)).
  reflexivity.
Qed.

(** X21. Every record [main] collects, from whatever directory it
    completes on, has a non-empty name that does not start with "TOTAL"
    and at least one non-empty payment field. *)
Theorem batch_records_valid (listing : list file) (out : list str)
    (records : list PixRecord) (lines : list str) :
  main U listing out = Ok (records, lines) ->
  Forall (valid_record U) records.
Proof.
  rewrite main_eq.
  destruct (batch_records U (main_files listing)) as [all|e] eqn:E;
    cbn [bind]; [|discriminate].
  intros [= <- _]. exact (batch_records_valid_all _ _ E).
Qed.

End BatchRecords.

(* ================================================================== *)
(** ** The further properties on the example sheets *)

Lemma ones_decimal (k : nat) : all_decimal latin1 (repeat 49%N k).
Proof.
  apply Forall_forall. intros c Hc. apply repeat_spec in Hc. subst c.
  discriminate.
Qed.

(** A text of 4301 ones is not empty and is made of decimal digits, and
    [numeric_or_string] returns it unchanged. *)
Lemma long_digit_text_unchanged :
  ones_4301 <> [] /\
  all_decimal latin1 ones_4301 /\
  length ones_4301 = 4301 /\
  numeric_or_string latin1 ones_4301 = Ok (VStr ones_4301).
Proof.
  split; [discriminate|]. split; [exact (ones_decimal 4301)|].
  split; vm_compute; reflexivity.
Qed.


Lemma leading_zero_witness :
  numeric_or_string latin1 (lit "045") = numeric_or_string latin1 (lit "45") /\
  (exists n, numeric_or_string latin1 ones_4300 = Ok (VInt n)) /\
  numeric_or_string latin1 (48%N :: ones_4300) = Ok (VStr (48%N :: ones_4300)).
Proof.
  split.
  - refine (proj1 (leading_zero_dropped latin1 (lit "45") _ _) _).
    + discriminate.
    + repeat constructor; discriminate.
    + change (2 < 4300). lia.
  - refine (proj2 (leading_zero_dropped latin1 ones_4300 _ _) _).
    + intros E. apply (f_equal (@length N)) in E.
      unfold ones_4300 in E. rewrite repeat_length in E. discriminate E.
    + exact (ones_decimal 4300).
    + unfold ones_4300. apply repeat_length.
Defined.

Lemma find_name_column_spec_witness :
  find_name_column spaced_header 0 2 spaced_header_row = Ok (Some 1) /\
  find_name_column (scenario (CInt (int_lit 1)) nan) 0 2
    [nan; txt "NOME"; txt "CPF"; txt "COD BANCO"; txt "BANCO";
     txt "NOME BANCO"; txt "AGENCIA"; txt "CONTA"; txt "CHAVE PIX";
     txt "PIX"]
  = Ok (Some 1).
Proof.
  split.
  - destruct (find_name_column_spec spaced_header 0 2 spaced_header_row
                eq_refl) as [H _]; [vm_compute; lia|].
    apply H. split; [lia|]. split.
    + exists [txt "Ana"; txt "Bia"; txt "123"; CInt (int_lit 341);
              txt "Itau"; CInt (int_lit 12)], (lit "Bia").
      split; [left; reflexivity|]. split; [reflexivity|].
      vm_compute. discriminate.
    + left. split.
      * exists nan. split; [reflexivity | right; left; reflexivity].
      * intros col' Hlt [v [Hv Hm]]. assert (col' = 0) as -> by lia.
        injection Hv as <-. exfalso.
        destruct Hm as [Hm | [Hm | Hm]]; discriminate Hm.
  - destruct (find_name_column_spec (scenario (CInt (int_lit 1)) nan) 0 2
                [nan; txt "NOME"; txt "CPF"; txt "COD BANCO"; txt "BANCO";
                 txt "NOME BANCO"; txt "AGENCIA"; txt "CONTA";
                 txt "CHAVE PIX"; txt "PIX"]
                eq_refl) as [H _]; [vm_compute; lia|].
    assert (Hno : ~ column_has_text
                      (data_rows (scenario (CInt (int_lit 1)) nan) 0) 0).
    { intros [row [s [Hin [Hn _]]]]. rewrite scenario_data in Hin.
      destruct Hin as [<- | []]. discriminate Hn. }
    apply H. split; [lia|]. split.
    + exists [nan; txt "Maria Silva"; txt "11122233344"; CInt (int_lit 1);
              txt "Banco X"; nan; txt "0001"; txt "12345"; txt "CPF";
              txt "11122233344"], (lit "Maria Silva").
      split; [left; reflexivity|]. split; [reflexivity|].
      vm_compute. discriminate.
    + right. split.
      * intros col' Hlt [v [Hv Hm]].
        assert (col' = 0 \/ col' = 1) as [-> | ->] by lia; [exact Hno|].
        injection Hv as <-. exfalso.
        destruct Hm as [Hm | [Hm | Hm]]; discriminate Hm.
      * intros col' Hlt. assert (col' = 0) as -> by lia. exact Hno.
Defined.

Lemma find_name_column_raises_witness :
  find_name_column [[txt "CPF"]; [CInt (int_lit 1)]] 0 5 [txt "CPF"] = Raise IndexError.
Proof.
  apply (proj2 (find_name_column_raises [[txt "CPF"]; [CInt (int_lit 1)]] 0 5
                  [txt "CPF"] IndexError eq_refl)).
  split; [reflexivity|]. split; [cbn; lia|].
  intros col Hlt [row [s [Hin [Hn _]]]].
  cbn in Hlt. assert (col = 0) as -> by lia.
  cbn in Hin. destruct Hin as [<- | []]. discriminate Hn.
Defined.

Lemma resolved_columns_witness :
  name_idx ledger_columns < cpf_idx ledger_columns /\
  cpf_idx ledger_columns < width ledger.
Proof.
  destruct (resolved_columns latin1 ledger 1 ledger_columns ledger_resolved)
    as [_ [H1 [_ [H2 _]]]].
  split; assumption.
Defined.

Lemma missing_cpf_label_witness :
  extract_rows_from_sheet latin1 cpf_cnpj = Ok [].
Proof.
  apply (missing_cpf_label latin1 cpf_cnpj 0
           [nan; txt "CPF/CNPJ"; txt "BANCO"; nan; txt "AGENCIA"]).
  - reflexivity.
  - reflexivity.
  - intros s Hin. simpl in Hin.
    destruct Hin as [E | [E | [E | [E | [E | []]]]]];
      try discriminate E; injection E as <-; vm_compute; discriminate.
Defined.

Lemma no_name_column_witness :
  extract_rows_from_sheet latin1 cpf_first = Ok [].
Proof.
  apply (no_name_column latin1 cpf_first 0 0
           [txt "CPF"; txt "BANCO"; nan; txt "AGENCIA"]).
  - reflexivity.
  - reflexivity.
  - reflexivity.
  - intros col Hlt. lia.
Defined.

Lemma kept_row_witness :
  exists first r last,
    rows_loop latin1 ledger_columns [] [] = Ok first /\
    rows_loop latin1 ledger_columns (skipn 1 (data_rows ledger 1)) []
      = Ok last /\
    emitted_from latin1 ledger_columns
      [txt "Ana Lima"; txt "123"; CInt (int_lit 341); txt "Itau"; CInt (int_lit 12); txt "a@b.c"]
      r /\
    extract_rows_from_sheet latin1 ledger = Ok (first ++ r :: last).
Proof.
  apply (kept_row_yields_one latin1 ledger 1 ledger_columns []
           [txt "Ana Lima"; txt "123"; CInt (int_lit 341); txt "Itau"; CInt (int_lit 12);
            txt "a@b.c"]
           (skipn 1 (data_rows ledger 1))).
  - exact ledger_resolved.
  - reflexivity.
  - vm_compute. discriminate.
  - intros [t E]. vm_compute in E. discriminate E.
  - exists (lit "123"). split; [left; reflexivity | discriminate].
Defined.

Lemma rows_contribute_witness :
  extract_rows_from_sheet latin1 ledger
  = Ok (flat_map (row_records latin1 ledger_columns) (data_rows ledger 1)).
Proof.
  exact (proj1 (rows_contribute_independently latin1 ledger 1 ledger_columns
                  ledger_resolved)).
Defined.

Lemma rows_above_header_witness :
  extract_rows_from_sheet latin1 ([[txt "Relatorio"; nan; nan]; []] ++ ledger)
  = extract_rows_from_sheet latin1 ledger.
Proof.
  apply (rows_above_header_ignored latin1).
  intros row Hin Hm. apply (cell_has_cpf_iff latin1) in Hm.
  destruct Hin as [<- | [<- | []]]; vm_compute in Hm; discriminate Hm.
Defined.

Lemma trailing_cells_witness :
  extract_rows_from_sheet latin1 ledger
  = extract_rows_from_sheet latin1 (rows ledger).
Proof.
  apply (trailing_missing_cells_ignored latin1).
  unfold rows, ledger. cbn [map].
  repeat (constructor; [apply agree_sym, agree_pad|]). constructor.
Defined.

Lemma listing_order_witness :
  main latin1 directory [] = main latin1 (rev directory) [].
Proof.
  apply (listing_order_irrelevant latin1).
  - apply Permutation_rev.
  - unfold directory. cbn [map fst].
    repeat (constructor; [cbv; intuition discriminate|]). constructor.
Defined.

(** The batch on the small directory: "a.xlsx" before "b.xlsx", the
    result file left out, one line for "c.xlsx". *)
Example directory_run :
  main latin1 directory []
  = Ok ([scenario_record nan;
         mkRecord (lit "Ana Lima") (lit "123") (VInt 341) (lit "Itau")
                  (lit "12") (lit "a@b.c") [] (VStr (lit "a@b.c"));
         mkRecord (lit "Bia Reis") (lit "1200") (VInt 45) [] []
                  (lit "0119") [] (VInt 119)],
        [cannot_open (lit "c.xlsx") (lit "File is not a zip file")]).
Proof. reflexivity. Qed.

(** With a workbook whose second sheet does not parse, the exception of
    that sheet leaves [process_workbook] and then [main]: "a.xlsx" and
    "b.xlsx" come before "b2.xlsx" and their records are lost with the
    run. *)
Example broken_directory_run :
  main_files broken_directory
  = [ (lit "a.xlsx", Sheets [Ok (scenario (CInt (int_lit 1)) nan)]);
      (lit "b.xlsx", Sheets [Ok no_banco; Ok ledger]);
      (lit "b2.xlsx", Sheets [Ok ledger; Raise bad_sheet; Ok ledger]);
      (lit "c.xlsx", Unreadable (lit "File is not a zip file")) ] /\
  process_workbook latin1
    (lit "b2.xlsx", Sheets [Ok ledger; Raise bad_sheet; Ok ledger]) []
  = Raise bad_sheet /\
  main latin1 broken_directory [] = Raise bad_sheet.
Proof. repeat split; reflexivity. Qed.




Lemma batch_records_witness :
  Forall (valid_record latin1)
    [scenario_record nan;
     mkRecord (lit "Ana Lima") (lit "123") (VInt 341) (lit "Itau")
              (lit "12") (lit "a@b.c") [] (VStr (lit "a@b.c"));
     mkRecord (lit "Bia Reis") (lit "1200") (VInt 45) [] []
              (lit "0119") [] (VInt 119)].
Proof.
  apply (batch_records_valid latin1 directory [] _
           [cannot_open (lit "c.xlsx") (lit "File is not a zip file")]).
  reflexivity.
Defined.

(** The sheets whose bank-name column, and whose account column, lie
    past the last column. *)
Lemma banco_last_resolved : resolved latin1 banco_last 0 banco_last_columns.
Proof.
  split; [reflexivity|]. eexists. split; [reflexivity|].
  repeat (split; [reflexivity|]). reflexivity.
Qed.

Lemma agencia_last_resolved :
  resolved latin1 agencia_last 0 agencia_last_columns.
Proof.
  split; [reflexivity|]. eexists. split; [reflexivity|].
  repeat (split; [reflexivity|]). reflexivity.
Qed.

Example beyond_width_runs :
  extract_rows_from_sheet latin1 banco_last
  = Ok [mkRecord (lit "Ana Lima") (lit "123") (VInt 341) []
                 (lit "12") (lit "341") [] (VStr [])] /\
  extract_rows_from_sheet latin1 agencia_last
  = Ok [mkRecord (lit "Ana Lima") (lit "123") (VInt 341) (lit "Itau")
                 (lit "12") [] [] (VStr [])].
Proof. split; reflexivity. Qed.

Lemma beyond_width_witness :
  (exists records r,
     extract_rows_from_sheet latin1 banco_last = Ok records /\
     In r records /\ NOME r = lit "Ana Lima" /\ BANCO r = []) /\
  (exists records r,
     extract_rows_from_sheet latin1 agencia_last = Ok records /\
     In r records /\ NOME r = lit "Ana Lima" /\ CONTA r = []).
Proof.
  split.
  - destruct (proj2 (proj2 (beyond_width_reads_empty latin1))
                banco_last 0 banco_last_columns banco_last_resolved)
      as [[records [E [Hb _]]] Hkept].
    destruct (Hkept [txt "Ana Lima"; txt "123"; CInt (int_lit 12);
                     CInt (int_lit 341)])
      as [records' [r [E' [Hin Hem]]]].
    + left. reflexivity.
    + vm_compute. discriminate.
    + intros [t Ht]. vm_compute in Ht. discriminate Ht.
    + exists (lit "123"). split; [left; reflexivity | discriminate].
    + rewrite E in E'. injection E' as <-.
      exists records, r. split; [exact E|]. split; [exact Hin|]. split.
      * exact (proj1 Hem).
      * apply (proj1 (Forall_forall _ _) (Hb ltac:(vm_compute; lia)) r Hin).
  - destruct (proj2 (proj2 (beyond_width_reads_empty latin1))
                agencia_last 0 agencia_last_columns agencia_last_resolved)
      as [[records [E [_ Hc]]] Hkept].
    destruct (Hkept [txt "Ana Lima"; txt "123"; CInt (int_lit 341);
                     txt "Itau"; CInt (int_lit 12)])
      as [records' [r [E' [Hin Hem]]]].
    + left. reflexivity.
    + vm_compute. discriminate.
    + intros [t Ht]. vm_compute in Ht. discriminate Ht.
    + exists (lit "123"). split; [left; reflexivity | discriminate].
    + rewrite E in E'. injection E' as <-.
      exists records, r. split; [exact E|]. split; [exact Hin|]. split.
      * exact (proj1 Hem).
      * apply (proj1 (Forall_forall _ _)
                 (proj2 (Hc ltac:(vm_compute; lia))) r Hin).
Defined.
